(** * value-investor-app: the data proxy and the derived-metrics functions

    A shallow embedding of [server/routes.ts] (the Express proxy in front
    of the market-data provider) and of the pure functions of
    [client/src/pages/StockResearchApp.tsx] (currency formatting, chart
    series, price change, DCF projection, demo segments, growth colours),
    followed by the properties the specification states about them.

    Both source files come in two listings.  The proxy is embedded
    twice, [Server.V1] (the key in the query string) and [Server.V2] (the
    key in headers, through [polygonFetch]), and its properties are
    proved for both.  The page is embedded from its full listing
    ([Client], and [Page] for what the component shows of the derived
    values); of the earlier listing only what differs in the functions
    at hand is kept ([Client.Legacy], [Page.Legacy]).

    Conventions of the embedding.
    - A JavaScript [number] is a rational ([Q]).  Where the program
      prints a computed number with two decimals (the quotient of
      [formatCurrency], the price change and its percentage) the digits
      depend on how the machine rounds, and the result of each operation
      is rounded to the nearest binary64 number ([JS.binary64], which
      [JSFacts.binary64_agrees_with_the_machine] compares with the floats
      of the machine); overflow to an infinity and underflow are not part
      of the model.  The other operations (comparisons, [Math.round],
      [Math.pow] with an integer exponent, the arithmetic of the chart
      series, of the projection and of the segments) are defined on the
      exact value, and so are the conversions to decimal text.  [NaN]
      arises from [parseInt], where it is modelled by [None], and, with
      the infinities, from the one division of the page whose divisor
      may be zero, whose result has a type of its own ([Page.Quotient]).
      Equality of numbers is [Qeq] ([==]).
    - A JavaScript string is a [string] of bytes, read as the UTF-8
      encoding of the text.
    - An optional field ([x?: T], or a property that may be missing in the
      provider's JSON) is an [option]; the optional chain [a?.b?.c] is the
      bind of the option monad ([≫=]), [xs[0]] is the list lookup
      [xs !! 0].
    - The runtime state that the functions read besides their arguments
      (the calendar year of [new Date()], the default locale of
      [toLocaleString]) is an explicit [Env] argument.
    - The asynchronous handlers of the proxy run in a small monad that
      threads the log of upstream calls and propagates exceptions; the
      provider and the network are a function from the calls made so far
      and the call at hand to the way the call settles. *)

From stdpp Require Import base option list strings gmap.
From Stdlib Require Import QArith Qround Qabs Qpower Lqa ZArith NArith Lia Ascii String.
From Stdlib Require Floats Uint63.

Local Open Scope string_scope.

(** * Part I: the JavaScript built-ins the program uses *)

Module JS.

(** ** Decimal digits *)

Definition digit_char (d : N) : ascii := ascii_of_N (48 + d).

Definition is_digit (a : ascii) : bool :=
  ((48 <=? N_of_ascii a) && (N_of_ascii a <=? 57))%N.

(** Most significant digit first; [fuel] bounds the number of divisions. *)
Fixpoint digits_fuel (fuel : nat) (n : N) (acc : string) : string :=
  let acc' := String (digit_char (n mod 10)) acc in
  match fuel with
  | O => acc'
  | S fuel' => if (n <? 10)%N then acc' else digits_fuel fuel' (n / 10) acc'
  end.

Definition N_digits (n : N) : string :=
  digits_fuel (N.to_nat (N.log2 n)) n "".

Definition Z_digits (z : Z) : string := N_digits (Z.to_N z).

Fixpoint zeros (k : nat) : string :=
  match k with O => "" | S k' => String "0" (zeros k') end.

Fixpoint all_digits (s : string) : bool :=
  match s with
  | "" => true
  | String a s' => is_digit a && all_digits s'
  end.

Fixpoint drop_leading_zeros (l : list ascii) : list ascii :=
  match l with
  | a :: l' => if Ascii.eqb a "0" then drop_leading_zeros l' else l
  | [] => []
  end.

Definition strip_trailing_zeros (s : string) : string :=
  string_of_list_ascii
    (rev (drop_leading_zeros (rev (list_ascii_of_string s)))).

(** ** Numbers *)

Definition Qlt_bool (x y : Q) : bool := negb (Qle_bool y x).

(** [ToBoolean] of a number: zero is falsy. *)
Definition truthy_number (x : Q) : bool := negb (Qeq_bool x 0).

(** [v || d] for an optional number [v]: [undefined] and [0] give [d]. *)
Definition or_number (v : option Q) (d : Q) : Q :=
  match v with
  | Some x => if truthy_number x then x else d
  | None => d
  end.

(** [v || d] for an optional string [v]: [undefined] and [""] give [d]. *)
Definition or_string (v : option string) (d : string) : string :=
  match v with
  | Some "" | None => d
  | Some s => s
  end.

(** The integer closest to [x * 10^f], the larger one on a tie. *)
Definition round_scaled (f : nat) (x : Q) : Z :=
  Qfloor (x * inject_Z (10 ^ Z.of_nat f) + 0.5).

(** [Math.round]: the closest integer, ties towards plus infinity. *)
Definition Math_round (x : Q) : Q := inject_Z (Qfloor (x + 0.5)).

(** [Math.pow], on the integer exponents the program supplies. *)
Definition Math_pow (base : Q) (exponent : nat) : Q :=
  Qpower base (Z.of_nat exponent).

(** ** Binary64 arithmetic

    A quotient, a difference or a product that the program prints with
    two decimals is the number the machine computes: the exact result
    rounded to the nearest number with 53 significant bits, to the one
    with the even significand on a tie.  The exponent is not bounded
    here, so these are the results of the machine as long as it neither
    overflows to an infinity nor underflows (magnitudes from 2^-1022 up
    to, not including, 2^1024). *)

(** For [0 < x], the exponent [e] with [2^e <= x < 2^(e+1)]. *)
Definition binade (x : Q) : Z :=
  let e := (Z.log2 (Qnum x) - Z.log2 (Zpos (Qden x)))%Z in
  if Qle_bool (2 ^ e) x then e else (e - 1)%Z.

(** The nearest integer, the even one on a tie. *)
Definition round_half_even (x : Q) : Z :=
  let n := Qfloor x in
  match Qcompare (x - inject_Z n) (1 # 2) with
  | Lt => n
  | Gt => (n + 1)%Z
  | Eq => if Z.even n then n else (n + 1)%Z
  end.

(** The binary64 number nearest to [x], as a fraction in lowest terms. *)
Definition binary64 (x : Q) : Q :=
  let x := Qred x in
  if Qeq_bool x 0 then 0
  else
    let k := (52 - binade (Qabs x))%Z in
    let m := inject_Z (round_half_even (Qabs x * 2 ^ k)) in
    Qred ((if Qle_bool 0 x then m else - m) / 2 ^ k).

(** The floats of the machine, to compare [binary64] with: the float
    of an integer below 2^63 in magnitude, and the value of a float. *)
Definition float_of_Z (z : Z) : PrimFloat.float :=
  if (z <? 0)%Z then PrimFloat.opp (PrimFloat.of_uint63 (Uint63.of_Z (- z)))
  else PrimFloat.of_uint63 (Uint63.of_Z z).

Definition float_value (f : PrimFloat.float) : option Q :=
  match FloatOps.Prim2SF f with
  | SpecFloat.S754_zero _ => Some 0
  | SpecFloat.S754_finite negative m e =>
      Some (Qred ((if negative then - inject_Z (Zpos m) else inject_Z (Zpos m)) * 2 ^ e))
  | _ => None
  end.

(** [Number.MAX_VALUE], the largest binary64 number.  A result that
    [binary64] places beyond it is an infinity on the machine. *)
Definition MAX_VALUE : Q := inject_Z ((2 ^ 53 - 1) * 2 ^ 971).

Definition isFinite (x : Q) : bool := Qle_bool (Qabs x) MAX_VALUE.

(** [x - y], [x / y] (for [y] other than zero) and [x * y]. *)
Definition Number_subtract (x y : Q) : Q := binary64 (x - y).
Definition Number_divide (x y : Q) : Q := binary64 (x / y).
Definition Number_multiply (x y : Q) : Q := binary64 (x * y).

(** ** Numbers to text *)

(** Exponent notation of [Number::toString], used from 1e21 on:
    the significant digits (here at most 17, the most a binary64 value
    prints), a point after the first when there are several, and the
    decimal exponent. *)
Definition exp_notation (x : Q) : string :=
  let n := Z.of_nat (String.length (Z_digits (Qfloor x))) in
  let s := Qfloor (x / inject_Z (10 ^ (n - 17)) + 0.5) in
  let '(s, n) := if (10 ^ 17 <=? s)%Z then (s / 10, n + 1)%Z else (s, n) in
  match strip_trailing_zeros (Z_digits s) with
  | "" => "0"
  | String d "" => String d "" +:+ "e+" +:+ Z_digits (n - 1)
  | String d rest => String d "" +:+ "." +:+ rest +:+ "e+" +:+ Z_digits (n - 1)
  end.

(** [Number.prototype.toString] of an integer-valued number. *)
Definition Number_toString (z : Z) : string :=
  let sign := if (z <? 0)%Z then "-" else "" in
  if (Z.abs z <? 10 ^ 21)%Z then sign +:+ Z_digits (Z.abs z)
  else sign +:+ exp_notation (inject_Z (Z.abs z)).

(** [Number.prototype.toFixed(f)]: sign, then either the exponent
    notation (from 1e21 on) or the digits of the scaled and rounded
    value, padded so that [f] of them follow the point. *)
Definition toFixed (f : nat) (x : Q) : string :=
  let s := if Qlt_bool x 0 then "-" else "" in
  let x := Qabs x in
  if Qle_bool (inject_Z (10 ^ 21)) x then s +:+ exp_notation x
  else
    let m := Z_digits (round_scaled f x) in
    match f with
    | O => s +:+ m
    | S _ =>
        let k := String.length m in
        let m := if (k <=? f)%nat then zeros (f + 1 - k) +:+ m else m in
        let k := String.length m in
        s +:+ substring 0 (k - f) m +:+ "." +:+ substring (k - f) f m
    end.

(** What [toLocaleString] reads from the runtime's default locale.  The
    digits are the ASCII digits and the minus sign is [-], as in every
    locale of the Latin numbering system; a default locale with another
    numbering system (ar-EG, for one) is outside the model. *)
Record Locale := {
  group_separator : string;
  decimal_separator : string;
  minimum_grouping_digits : nat
}.

Definition en_US : Locale :=
  {| group_separator := ","; decimal_separator := "."; minimum_grouping_digits := 1 |}.
Definition de_DE : Locale :=
  {| group_separator := "."; decimal_separator := ","; minimum_grouping_digits := 1 |}.
Definition es_ES : Locale :=
  {| group_separator := "."; decimal_separator := ","; minimum_grouping_digits := 2 |}.

(** Separator before every complete group of three digits, counted from
    the right; [l] is the digit string reversed. *)
Fixpoint group_rev (sep : list ascii) (l : list ascii) : list ascii :=
  match l with
  | a :: b :: c :: ((_ :: _) as rest) => a :: b :: c :: rev sep ++ group_rev sep rest
  | _ => l
  end.

Definition group_digits (loc : Locale) (digits : string) : string :=
  if (3 + minimum_grouping_digits loc <=? String.length digits)%nat then
    string_of_list_ascii
      (rev (group_rev (list_ascii_of_string (group_separator loc))
                      (rev (list_ascii_of_string digits))))
  else digits.

(** [Number.prototype.toLocaleString()] with the default options: at most
    three fraction digits (rounded half away from zero, trailing zeros
    dropped) and the locale's grouping. *)
Definition toLocaleString (loc : Locale) (x : Q) : string :=
  let sign := if Qlt_bool x 0 then "-" else "" in
  let n := round_scaled 3 (Qabs x) in
  let int_part := group_digits loc (Z_digits (n / 1000)) in
  let frac := Z_digits (n mod 1000) in
  let frac := strip_trailing_zeros (zeros (3 - String.length frac) +:+ frac) in
  match frac with
  | "" => sign +:+ int_part
  | _ => sign +:+ int_part +:+ decimal_separator loc +:+ frac
  end.

(** ** Text to numbers *)

Definition digit_value (radix : N) (a : ascii) : option N :=
  let c := N_of_ascii a in
  let v := if ((48 <=? c) && (c <=? 57))%N then Some (c - 48)%N
           else if ((97 <=? c) && (c <=? 122))%N then Some (c - 87)%N
           else if ((65 <=? c) && (c <=? 90))%N then Some (c - 55)%N
           else None in
  match v with
  | Some d => if (d <? radix)%N then Some d else None
  | None => None
  end.

(** The longest prefix of digits of the radix, as a number; [acc] is
    [None] until a digit has been read. *)
Fixpoint parse_digits (radix : N) (s : string) (acc : option N) : option N :=
  match s with
  | String a s' =>
      match digit_value radix a with
      | Some d => parse_digits radix s' (Some (radix * default 0%N acc + d)%N)
      | None => acc
      end
  | "" => acc
  end.

Definition is_ascii_white (c : N) : bool :=
  ((9 <=? c) && (c <=? 13) || (c =? 32))%N.

(** U+1680, U+2000..U+200A, U+2028, U+2029, U+202F, U+205F, U+3000 and
    U+FEFF in UTF-8. *)
Definition is_white3 (a b c : N) : bool :=
  ((a =? 225) && (b =? 154) && (c =? 128)
   || (a =? 226) && (b =? 128)
      && ((128 <=? c) && (c <=? 138) || (c =? 168) || (c =? 169) || (c =? 175))
   || (a =? 226) && (b =? 129) && (c =? 159)
   || (a =? 227) && (b =? 128) && (c =? 128)
   || (a =? 239) && (b =? 187) && (c =? 191))%N.

(** Leading [StrWhiteSpaceChar]s removed. *)
Fixpoint skip_white (s : string) : string :=
  match s with
  | String a s1 =>
      if is_ascii_white (N_of_ascii a) then skip_white s1
      else
        match s1 with
        | String b s2 =>
            if ((N_of_ascii a =? 194) && (N_of_ascii b =? 160))%N then skip_white s2
            else
              match s2 with
              | String c s3 =>
                  if is_white3 (N_of_ascii a) (N_of_ascii b) (N_of_ascii c)
                  then skip_white s3 else s
              | "" => s
              end
        | "" => s
        end
  | "" => ""
  end.

(** The part of [parseInt] after the sign: an optional [0x] prefix
    selects radix 16, then the digits; [None] is [NaN]. *)
Definition parse_magnitude (sign : Z) (s : string) : option Z :=
  let '(radix, s) :=
    match s with
    | String a (String b r) =>
        if Ascii.eqb a "0" && (Ascii.eqb b "x" || Ascii.eqb b "X")
        then (16%N, r) else (10%N, s)
    | _ => (10%N, s)
    end in
  match parse_digits radix s None with
  | Some n => Some (sign * Z.of_N n)%Z
  | None => None
  end.

(** [parseInt(s)] without a radix argument. *)
Definition parseInt (s : string) : option Z :=
  match skip_white s with
  | String a r =>
      if Ascii.eqb a "-" then parse_magnitude (-1) r
      else if Ascii.eqb a "+" then parse_magnitude 1 r
      else parse_magnitude 1 (String a r)
  | "" => None
  end.

(** ** URI components *)

Definition is_unreserved (a : ascii) : bool :=
  let c := N_of_ascii a in
  ((48 <=? c) && (c <=? 57) || (65 <=? c) && (c <=? 90) || (97 <=? c) && (c <=? 122))%N
  || existsb (Ascii.eqb a) (list_ascii_of_string "-_.!~*'()").

Definition hex_char (d : N) : ascii :=
  if (d <? 10)%N then digit_char d else ascii_of_N (55 + d).

(** [encodeURIComponent]: every byte outside the unreserved set becomes
    [%XX]. *)
Fixpoint encodeURIComponent (s : string) : string :=
  match s with
  | "" => ""
  | String a r =>
      if is_unreserved a then String a (encodeURIComponent r)
      else
        let c := N_of_ascii a in
        String "%" (String (hex_char (c / 16)) (String (hex_char (c mod 16))
          (encodeURIComponent r)))
  end.

End JS.

(** * Part II: the derived-metrics functions (StockResearchApp.tsx) *)

Module Client.
Import JS.
Local Open Scope Q_scope.

(** ** Provider payloads *)

(** [{ value: number; unit: string }] *)
Record Metric := { value : Q; unit : string }.

Record IncomeStatement := {
  revenues : option Metric;
  net_income_loss : option Metric;
  gross_profit : option Metric;
  basic_earnings_per_share : option Metric
}.

Record Financials := { income_statement : IncomeStatement }.

(** [interface FinancialData] *)
Record FinancialData := {
  fiscal_year : string;
  fiscal_period : string;
  end_date : string;
  financials : Financials
}.

(** The payload of [/financials/income]; the provider lists the newest
    period first. *)
Record FinancialsResponse := { results : option (list FinancialData) }.

(** One bar of the previous session: close [c] and open [o]. *)
Record Bar := { c : option Q; o : option Q }.

(** The payload of [/previous]. *)
Module PreviousDay.
Record t := { results : option (list Bar) }.
End PreviousDay.

(** ** Chart and table rows *)

Module RevenuePoint.
Record t := { year : string; revenue : Q }.
End RevenuePoint.

Module ProfitPoint.
Record t := { year : string; netIncome : Q }.
End ProfitPoint.

Module DCFPoint.
Record t := { year : string; fcf : Q; dcf : Q }.
End DCFPoint.

Module Segment.
Record t := { name : string; value : Q; growth : Q; color : string }.
End Segment.

(** ** What the functions read from the runtime *)

Record Env := {
  getFullYear : Z;        (* new Date().getFullYear() *)
  default_locale : Locale (* the locale of toLocaleString() *)
}.

(** ** Module-level functions *)

(** [(latestYear + i + 1).toString()], where [latestYear] may be [NaN]. *)
Definition year_label (latestYear : option Z) (i : nat) : string :=
  match latestYear with
  | Some y => Number_toString (y + Z.of_nat i + 1)
  | None => "NaN"
  end.

(** [generateDCFData]: five projected years after the first (newest)
    period. *)
Definition generateDCFData (env : Env) (financials : list FinancialData)
  : list DCFPoint.t :=
  if bool_decide (List.length financials = 0%nat) then []
  else
    let first := financials !! 0%nat in
    let latestYear :=
      parseInt (or_string (fiscal_year <$> first)
                          (Number_toString (getFullYear env))) in
    let latestRevenue :=
      or_number (Client.value <$>
                   (first ≫= λ f, revenues (income_statement (Client.financials f))))
                0 / 1e9 in
    let growthRate := 1.05 in
    let discountRate := 0.97 in
    map (λ i : nat,
           {| DCFPoint.year := year_label latestYear i;
              DCFPoint.fcf :=
                Math_round (latestRevenue * Math_pow growthRate (i + 1) * 0.15);
              DCFPoint.dcf :=
                Math_round (latestRevenue * Math_pow growthRate (i + 1) * 0.15
                            * Math_pow discountRate (i + 1)) |})
        (seq 0 5).

(** [generateDemoSegmentsData]: the fixed three-way split. *)
Definition generateDemoSegmentsData (latestRevenue : Q) : list Segment.t :=
  if Qeq_bool latestRevenue 0 then []
  else
    [ {| Segment.name := "Products";
         Segment.value := Math_round (latestRevenue * 0.55 * 10) / 10;
         Segment.growth := 5.2; Segment.color := "#F59E0B" |};
      {| Segment.name := "Services";
         Segment.value := Math_round (latestRevenue * 0.30 * 10) / 10;
         Segment.growth := 8.5; Segment.color := "#3B82F6" |};
      {| Segment.name := "Other";
         Segment.value := Math_round (latestRevenue * 0.15 * 10) / 10;
         Segment.growth := 3.1; Segment.color := "#10B981" |} ].

(** ** Values derived inside the component *)

Definition formatCurrency (env : Env) (value : Q) : string :=
  if Qle_bool 1e12 value then "$" +:+ toFixed 2 (Number_divide value 1e12) +:+ "T"
  else if Qle_bool 1e9 value then "$" +:+ toFixed 2 (Number_divide value 1e9) +:+ "B"
  else if Qle_bool 1e6 value then "$" +:+ toFixed 2 (Number_divide value 1e6) +:+ "M"
  else "$" +:+ toLocaleString (default_locale env) value.

(** [revenues?.value || 0] and [net_income_loss?.value || 0] *)
Definition revenue_or_0 (item : FinancialData) : Q :=
  or_number (Client.value <$> revenues (income_statement (Client.financials item))) 0.

Definition net_income_or_0 (item : FinancialData) : Q :=
  or_number (Client.value <$> net_income_loss (income_statement (Client.financials item))) 0.

(** [financials?.results?.map(...).reverse()] *)
Definition revenueChartData (financials : option FinancialsResponse)
  : option (list RevenuePoint.t) :=
  (λ periods : list FinancialData,
     reverse ((λ item : FinancialData,
                 {| RevenuePoint.year := fiscal_year item;
                    RevenuePoint.revenue := revenue_or_0 item / 1e9 |})
              <$> periods))
  <$> (financials ≫= results).

Definition profitChartData (financials : option FinancialsResponse)
  : option (list ProfitPoint.t) :=
  (λ periods : list FinancialData,
     reverse ((λ item : FinancialData,
                 {| ProfitPoint.year := fiscal_year item;
                    ProfitPoint.netIncome := net_income_or_0 item / 1e9 |})
              <$> periods))
  <$> (financials ≫= results).

(** [previousDay?.results?.[0]] *)
Definition snapshot (previousDay : option PreviousDay.t) : option Bar :=
  (previousDay ≫= PreviousDay.results) ≫= (λ l : list Bar, l !! 0%nat).

Definition currentPrice (previousDay : option PreviousDay.t) : Q :=
  or_number (snapshot previousDay ≫= c) 0.

Definition previousClose (previousDay : option PreviousDay.t) : Q :=
  or_number (snapshot previousDay ≫= o) (currentPrice previousDay).

Definition priceChange (previousDay : option PreviousDay.t) : Q :=
  Number_subtract (currentPrice previousDay) (previousClose previousDay).

Definition priceChangePercent (previousDay : option PreviousDay.t) : string :=
  if Qlt_bool 0 (previousClose previousDay)
  then toFixed 2 (Number_multiply
                    (Number_divide (priceChange previousDay) (previousClose previousDay))
                    100)
  else "0.00".

(** [generateDCFData(financials?.results || [])] *)
Definition dcfData (env : Env) (financials : option FinancialsResponse)
  : list DCFPoint.t :=
  generateDCFData env (default [] (financials ≫= results)).

Definition segmentsData (financials : option FinancialsResponse) : list Segment.t :=
  let latestRevenue :=
    or_number (Client.value <$>
                 (((financials ≫= results) ≫= (λ l : list FinancialData, l !! 0%nat))
                  ≫= λ f, revenues (income_statement (Client.financials f))))
              0 in
  generateDemoSegmentsData (latestRevenue / 1e9).

Definition getGrowthColor (growth : Q) : string :=
  if Qle_bool 15 growth then "#10B981"
  else if Qle_bool 5 growth then "#3B82F6"
  else if Qle_bool (-5) growth then "#F59E0B"
  else if Qle_bool (-5) growth then "#F97316"
  else "#EF4444".

(** ** The earlier revision of the page (second listing of the file) *)

Module Legacy.

Definition formatCurrency (env : Env) (value : Q) : string :=
  if Qle_bool 1e9 value then "$" +:+ toFixed 2 (Number_divide value 1e9) +:+ "B"
  else if Qle_bool 1e6 value then "$" +:+ toFixed 2 (Number_divide value 1e6) +:+ "M"
  else "$" +:+ toLocaleString (default_locale env) value.

Record ChartRow := { year : string; revenue : Q; netIncome : Q }.

Definition revenueChartData (financials : option FinancialsResponse)
  : option (list ChartRow) :=
  (λ periods : list FinancialData,
     reverse ((λ item : FinancialData,
                 {| year := fiscal_year item;
                    revenue := revenue_or_0 item;
                    netIncome := net_income_or_0 item |})
              <$> periods))
  <$> (financials ≫= results).

End Legacy.

End Client.

(** * Part II, continued: what the page shows of the derived values *)

Module Page.
Import JS Client.
Local Open Scope Q_scope.

(** The payload of [/details], as far as the page reads it. *)
Module StockDetails.
Record info := {
  name : option string;
  market_cap : option Q;
  sic_description : option string
}.
Record t := { results : option info }.
End StockDetails.

(** ** The metrics above the tabs *)

(** [stockDetails?.results?.market_cap] *)
Definition marketCap (stockDetails : option StockDetails.t) : option Q :=
  (stockDetails ≫= StockDetails.results) ≫= StockDetails.market_cap.

(** [financials?.results?.[0]] *)
Definition latestFinancials (financials : option FinancialsResponse)
  : option FinancialData :=
  (financials ≫= Client.results) ≫= (λ l : list FinancialData, l !! 0%nat).

Definition eps (financials : option FinancialsResponse) : Q :=
  or_number (Client.value <$>
               (latestFinancials financials
                ≫= λ f, basic_earnings_per_share (income_statement (Client.financials f))))
            0.

Definition peRatio (financials : option FinancialsResponse)
    (previousDay : option PreviousDay.t) : string :=
  if Qlt_bool 0 (eps financials) && Qlt_bool 0 (currentPrice previousDay)
  then toFixed 1 (currentPrice previousDay / eps financials)
  else "N/A".

(** [{marketCap ? formatCurrency(marketCap) : "N/A"}] *)
Definition marketCapCard (env : Env) (stockDetails : option StockDetails.t) : string :=
  match marketCap stockDetails with
  | Some cap => if truthy_number cap then formatCurrency env cap else "N/A"
  | None => "N/A"
  end.

(** [{currentPrice > 0 ? `$${currentPrice.toFixed(2)}` : "N/A"}] *)
Definition stockPriceCard (previousDay : option PreviousDay.t) : string :=
  if Qlt_bool 0 (currentPrice previousDay)
  then "$" +:+ toFixed 2 (currentPrice previousDay)
  else "N/A".

(** ** The line under the price *)

(** [{priceChange >= 0 ? "+" : ""}] *)
Definition plus_sign (x : Q) : string := if Qle_bool 0 x then "+" else "".

(** The line under the price: sign, change, and in brackets sign and
    percentage. *)
Definition priceChangeText (previousDay : option PreviousDay.t) : string :=
  plus_sign (priceChange previousDay) +:+ "$" +:+ toFixed 2 (priceChange previousDay)
  +:+ " (" +:+ plus_sign (priceChange previousDay)
  +:+ priceChangePercent previousDay +:+ "%)".

Definition priceChangeClass (previousDay : option PreviousDay.t) : string :=
  if Qle_bool 0 (priceChange previousDay) then "text-green-600" else "text-red-600".

(** ** The segment table *)

(** A quotient whose divisor may be zero.  This is the one division of
    the page that is not guarded, so its result is kept apart from the
    finite numbers: [x / 0] is an infinity with the sign of [x] (the
    divisor below is a sum that starts from [0], hence never [-0]), and
    [0 / 0] is [NaN]. *)
Inductive Quotient :=
| Finite (q : Q)
| Infinite (negative : bool)
| NotANumber.

Definition divide (x y : Q) : Quotient :=
  if Qeq_bool y 0 then
    if Qeq_bool x 0 then NotANumber else Infinite (Qlt_bool x 0)
  else Finite (x / y).

(** [(quotient * 100).toFixed(1)] *)
Definition percent_toFixed_1 (quotient : Quotient) : string :=
  match quotient with
  | Finite q => toFixed 1 (q * 100)
  | Infinite negative => if negative then "-Infinity" else "Infinity"
  | NotANumber => "NaN"
  end.

(** [segmentsData.reduce((sum, s) => sum + s.value, 0)] *)
Definition total (segmentsData : list Segment.t) : Q :=
  foldl (λ (sum : Q) (s : Segment.t), sum + Segment.value s) 0 segmentsData.

Definition percentage (segmentsData : list Segment.t) (segment : Segment.t) : string :=
  percent_toFixed_1 (divide (Segment.value segment) (total segmentsData)).

(** The column [% of Total], one cell per segment. *)
Definition percentages (segmentsData : list Segment.t) : list string :=
  percentage segmentsData <$> segmentsData.

(** ** The table of the earlier revision (second listing) *)

Module Legacy.

Definition revenueCell (env : Env) (item : FinancialData) : string :=
  Client.Legacy.formatCurrency env (revenue_or_0 item).

Definition netIncomeCell (env : Env) (item : FinancialData) : string :=
  Client.Legacy.formatCurrency env (net_income_or_0 item).

Definition grossProfitCell (env : Env) (item : FinancialData) : string :=
  Client.Legacy.formatCurrency env
    (or_number (Client.value <$> gross_profit (income_statement (Client.financials item))) 0).

(** [${basic_earnings_per_share?.value?.toFixed(2) || "N/A"}] *)
Definition epsCell (item : FinancialData) : string :=
  "$" +:+ or_string (toFixed 2 <$> (Client.value <$>
                       basic_earnings_per_share (income_statement (Client.financials item))))
                    "N/A".

End Legacy.

End Page.

(** * Part III: the data proxy (server/routes.ts) *)

Module Server.
Import JS.

(** ** Requests *)

(** A value of [req.query], as the query-string parser produces it. *)
#[local] Unset Elimination Schemes.
Inductive QueryValue :=
| QString (s : string)
| QArray (items : list QueryValue)
| QObject (fields : list (string * QueryValue)).
#[local] Set Elimination Schemes.

(** [ToString], as a template literal or [encodeURIComponent] applies it. *)
Fixpoint ToString (v : QueryValue) : string :=
  match v with
  | QString s => s
  | QArray items => String.concat "," (map ToString items)
  | QObject _ => "[object Object]"
  end.

(** [ToBoolean] of a possibly missing query value: only [undefined] and
    the empty string are falsy. *)
Definition truthy (v : option QueryValue) : bool :=
  match v with
  | None | Some (QString "") => false
  | Some _ => true
  end.

(** [`${v || d}`] *)
Definition or_default (v : option QueryValue) (d : string) : string :=
  match v with
  | Some x => if truthy v then ToString x else d
  | None => d
  end.

(** [`${v}`] and [encodeURIComponent(v)] turn [v] into text first. *)
Definition interpolate (v : option QueryValue) : string :=
  match v with
  | Some x => ToString x
  | None => "undefined"
  end.

(** [`${v}`] for a destructured [v = d], which only replaces [undefined]. *)
Definition destructured (v : option QueryValue) (d : string) : string :=
  match v with
  | Some x => ToString x
  | None => d
  end.

Record Request := {
  ticker : string;                  (* req.params.ticker *)
  query : gmap string QueryValue    (* req.query *)
}.

Inductive Route := Search | Details | Income | Aggregates | Previous.

(** ** Responses of the proxy *)

(** A JSON document, relayed as it is. *)
Definition Json : Type := string.

Inductive Body :=
| ErrorBody (error : string)   (* { error: ... } *)
| DataBody (data : Json).

Record HttpResponse := { status : nat; body : Body }.

(** ** The upstream provider *)

Record FetchCall := { url : string; headers : list (string * string) }.

(** How a promise settles. *)
Inductive Settled (A : Type) :=
| Fulfilled (a : A)
| Rejected (message : string).
Arguments Fulfilled {A} a.
Arguments Rejected {A} message.

(** What the proxy reads of an upstream response. *)
Record Response := {
  ok : bool;
  statusText : string;
  text : Settled string;   (* response.text() *)
  json : Settled Json      (* response.json() *)
}.

(** The provider and the network: the outcome of a call, which may depend
    on the calls made before it. *)
Definition Upstream : Type := list FetchCall → FetchCall → Settled Response.

(** ** The handler monad: upstream calls are logged, exceptions propagate *)

Definition Eff (A : Type) : Type :=
  Upstream → list FetchCall → Settled A * list FetchCall.

#[global] Instance Eff_ret : MRet Eff := λ A a _ log, (Fulfilled a, log).

#[global] Instance Eff_bind : MBind Eff := λ A B k m up log,
  match m up log with
  | (Fulfilled a, log') => k a up log'
  | (Rejected message, log') => (Rejected message, log')
  end.

(** [throw new Error(message)] *)
Definition throw {A} (message : string) : Eff A :=
  λ _ log, (Rejected message, log).

(** [await p] for a promise that does no further I/O of the proxy. *)
Definition await {A} (p : Settled A) : Eff A := λ _ log, (p, log).

(** [await fetch(url, { headers })] *)
Definition fetch (call : FetchCall) : Eff Response :=
  λ up log, (up log call, (log ++ [call])%list).

(** [try { body } catch (error) { handler(error.message) }] *)
Definition try_catch {A} (body : Eff A) (handler : string → Eff A) : Eff A :=
  λ up log,
    match body up log with
    | (Fulfilled a, log') => (Fulfilled a, log')
    | (Rejected message, log') => handler message up log'
    end.

(** [res.status(code).json({ error })] and [res.json(data)] *)
Definition send_error (code : nat) (error : string) : Eff HttpResponse :=
  mret {| status := code; body := ErrorBody error |}.

Definition send_json (data : Json) : Eff HttpResponse :=
  mret {| status := 200; body := DataBody data |}.

Definition run {A} (m : Eff A) (up : Upstream) : Settled A * list FetchCall :=
  m up [].

Definition POLYGON_BASE_URL : string := "https://api.polygon.io".

Definition missing_key_message : string :=
  "POLYGON_API_KEY environment variable is required but not set".

(** ** First listing: the key travels in the query string *)

Module V1.
Section Routes.
Variable POLYGON_API_KEY : string.

Definition search (req : Request) : Eff HttpResponse :=
  try_catch
    (let query := query req !! "q" in
     if negb (truthy query) then send_error 400 "Query parameter 'q' is required"
     else
       response ← fetch {| url := POLYGON_BASE_URL +:+ "/v3/reference/tickers?search="
                                  +:+ encodeURIComponent (interpolate query)
                                  +:+ "&active=true&limit=10&apiKey=" +:+ POLYGON_API_KEY;
                           headers := [] |};
       if negb (ok response) then throw ("Polygon API error: " +:+ statusText response)
       else data ← await (json response); send_json data)
    (λ message, send_error 500 message).

Definition details (req : Request) : Eff HttpResponse :=
  try_catch
    (let encodedTicker := encodeURIComponent (ticker req) in
     response ← fetch {| url := POLYGON_BASE_URL +:+ "/v3/reference/tickers/"
                                +:+ encodedTicker +:+ "?apiKey=" +:+ POLYGON_API_KEY;
                         headers := [] |};
     if negb (ok response) then throw ("Polygon API error: " +:+ statusText response)
     else data ← await (json response); send_json data)
    (λ message, send_error 500 message).

Definition income (req : Request) : Eff HttpResponse :=
  try_catch
    (let encodedTicker := encodeURIComponent (ticker req) in
     let timeframe := or_default (query req !! "timeframe") "annual" in
     let limit := or_default (query req !! "limit") "5" in
     response ← fetch {| url := POLYGON_BASE_URL +:+ "/vX/reference/financials?ticker="
                                +:+ encodedTicker +:+ "&timeframe=" +:+ timeframe
                                +:+ "&limit=" +:+ limit +:+ "&apiKey=" +:+ POLYGON_API_KEY;
                         headers := [] |};
     if negb (ok response) then throw ("Polygon API error: " +:+ statusText response)
     else data ← await (json response); send_json data)
    (λ message, send_error 500 message).

Definition aggregates (req : Request) : Eff HttpResponse :=
  try_catch
    (let encodedTicker := encodeURIComponent (ticker req) in
     let from := query req !! "from" in
     let to := query req !! "to" in
     let timespan := destructured (query req !! "timespan") "day" in
     let multiplier := destructured (query req !! "multiplier") "1" in
     if negb (truthy from) || negb (truthy to)
     then send_error 400 "from and to date parameters are required (YYYY-MM-DD)"
     else
       response ← fetch {| url := POLYGON_BASE_URL +:+ "/v2/aggs/ticker/" +:+ encodedTicker
                                  +:+ "/range/" +:+ multiplier +:+ "/" +:+ timespan
                                  +:+ "/" +:+ interpolate from +:+ "/" +:+ interpolate to
                                  +:+ "?adjusted=true&sort=asc&apiKey=" +:+ POLYGON_API_KEY;
                           headers := [] |};
       if negb (ok response) then throw ("Polygon API error: " +:+ statusText response)
       else data ← await (json response); send_json data)
    (λ message, send_error 500 message).

Definition previous (req : Request) : Eff HttpResponse :=
  try_catch
    (let encodedTicker := encodeURIComponent (ticker req) in
     response ← fetch {| url := POLYGON_BASE_URL +:+ "/v2/aggs/ticker/" +:+ encodedTicker
                                +:+ "/prev?adjusted=true&apiKey=" +:+ POLYGON_API_KEY;
                         headers := [] |};
     if negb (ok response) then throw ("Polygon API error: " +:+ statusText response)
     else data ← await (json response); send_json data)
    (λ message, send_error 500 message).

Definition handler (route : Route) : Request → Eff HttpResponse :=
  match route with
  | Search => search
  | Details => details
  | Income => income
  | Aggregates => aggregates
  | Previous => previous
  end.

End Routes.

(** [registerRoutes]: refuses to start without the key. *)
Definition registerRoutes (env_POLYGON_API_KEY : option string)
  : Settled (Route → Request → Eff HttpResponse) :=
  match env_POLYGON_API_KEY with
  | None | Some "" => Rejected missing_key_message
  | Some key => Fulfilled (handler key)
  end.

End V1.

(** ** Second listing: the key travels in headers, through [polygonFetch] *)

Module V2.
Section Routes.
Variable POLYGON_API_KEY : string.

Definition authHeaders : list (string * string) :=
  [ ("Authorization", "Bearer " +:+ POLYGON_API_KEY);
    ("X-Polygon-API-Key", POLYGON_API_KEY) ].

Definition polygonFetch (pathWithQuery : string) : Eff Response :=
  let url := POLYGON_BASE_URL +:+ pathWithQuery in
  response ← fetch {| url := url; headers := authHeaders |};
  if negb (ok response) then
    body ← await (text response);
    throw ("Polygon API error: " +:+ statusText response)
  else mret response.

Definition search (req : Request) : Eff HttpResponse :=
  try_catch
    (let query := query req !! "q" in
     if negb (truthy query) then send_error 400 "Query parameter 'q' is required"
     else
       response ← polygonFetch ("/v3/reference/tickers?search="
                                +:+ encodeURIComponent (interpolate query)
                                +:+ "&active=true&limit=10");
       if negb (ok response) then throw ("Polygon API error: " +:+ statusText response)
       else data ← await (json response); send_json data)
    (λ message, send_error 500 message).

Definition details (req : Request) : Eff HttpResponse :=
  try_catch
    (let encodedTicker := encodeURIComponent (ticker req) in
     response ← polygonFetch ("/v3/reference/tickers/" +:+ encodedTicker);
     if negb (ok response) then throw ("Polygon API error: " +:+ statusText response)
     else data ← await (json response); send_json data)
    (λ message, send_error 500 message).

Definition income (req : Request) : Eff HttpResponse :=
  try_catch
    (let encodedTicker := encodeURIComponent (ticker req) in
     let timeframe := or_default (query req !! "timeframe") "annual" in
     let limit := or_default (query req !! "limit") "5" in
     response ← polygonFetch ("/vX/reference/financials?ticker=" +:+ encodedTicker
                              +:+ "&timeframe=" +:+ timeframe +:+ "&limit=" +:+ limit);
     if negb (ok response) then throw ("Polygon API error: " +:+ statusText response)
     else data ← await (json response); send_json data)
    (λ message, send_error 500 message).

Definition aggregates (req : Request) : Eff HttpResponse :=
  try_catch
    (let encodedTicker := encodeURIComponent (ticker req) in
     let from := query req !! "from" in
     let to := query req !! "to" in
     let timespan := destructured (query req !! "timespan") "day" in
     let multiplier := destructured (query req !! "multiplier") "1" in
     if negb (truthy from) || negb (truthy to)
     then send_error 400 "from and to date parameters are required (YYYY-MM-DD)"
     else
       response ← polygonFetch ("/v2/aggs/ticker/" +:+ encodedTicker
                                +:+ "/range/" +:+ multiplier +:+ "/" +:+ timespan
                                +:+ "/" +:+ interpolate from +:+ "/" +:+ interpolate to
                                +:+ "?adjusted=true&sort=asc");
       if negb (ok response) then throw ("Polygon API error: " +:+ statusText response)
       else data ← await (json response); send_json data)
    (λ message, send_error 500 message).

Definition previous (req : Request) : Eff HttpResponse :=
  try_catch
    (let encodedTicker := encodeURIComponent (ticker req) in
     response ← polygonFetch ("/v2/aggs/ticker/" +:+ encodedTicker
                              +:+ "/prev?adjusted=true");
     if negb (ok response) then throw ("Polygon API error: " +:+ statusText response)
     else data ← await (json response); send_json data)
    (λ message, send_error 500 message).

Definition handler (route : Route) : Request → Eff HttpResponse :=
  match route with
  | Search => search
  | Details => details
  | Income => income
  | Aggregates => aggregates
  | Previous => previous
  end.

End Routes.

Definition registerRoutes (env_POLYGON_API_KEY : option string)
  : Settled (Route → Request → Eff HttpResponse) :=
  match env_POLYGON_API_KEY with
  | None | Some "" => Rejected missing_key_message
  | Some key => Fulfilled (handler key)
  end.

End V2.

(** ** The two listings side by side *)

Inductive Listing := KeyInQuery | KeyInHeaders.

Definition handler (l : Listing) (key : string) : Route → Request → Eff HttpResponse :=
  match l with
  | KeyInQuery => V1.handler key
  | KeyInHeaders => V2.handler key
  end.

(** Requests handled one after the other: the runs of their handlers in
    sequence.  (The dispatcher itself is Express, which is not among the
    sources.) *)
Fixpoint serve (h : Route → Request → Eff HttpResponse)
    (requests : list (Route * Request)) : Eff (list HttpResponse) :=
  match requests with
  | [] => mret []
  | (route, req) :: rest =>
      r ← h route req;
      rs ← serve h rest;
      mret (r :: rs)
  end.

End Server.

(** * Part IV: vocabulary of the specification *)

Module Spec.
Import JS.

(** A number rendered with exactly two fraction digits: the integer
    closest to a hundred times its magnitude (the larger one on a tie)
    is written as whole part, point, tens digit and units digit. *)
Definition two_decimal_places (x : Q) : string :=
  let n := Z.to_N (round_scaled 2 (Qabs x)) in
  (if Qlt_bool x 0 then "-" else "")
  +:+ N_digits (n / 100) +:+ "."
  +:+ String (digit_char (n / 10 mod 10)) (String (digit_char (n mod 10)) "").

(** A query that is empty or consists of ASCII blanks only. *)
Fixpoint whitespace_only (s : string) : bool :=
  match s with
  | "" => true
  | String a s' => is_ascii_white (N_of_ascii a) && whitespace_only s'
  end.

(** [needle] occurs in [haystack]. *)
Definition embeds (haystack needle : string) : bool :=
  bool_decide (is_Some (index 0 needle haystack)).

Import Server.

Definition error_response (code : nat) (error : string) : HttpResponse :=
  {| status := code; body := ErrorBody error |}.

(** A request that passes the parameter check of its route: [q] for the
    search, [from] and [to] for the aggregates, none for the others. *)
Definition accepted (route : Route) (req : Request) : bool :=
  match route with
  | Search => truthy (query req !! "q")
  | Aggregates => truthy (query req !! "from") && truthy (query req !! "to")
  | Details | Income | Previous => true
  end.

(** The answer of the proxy to the outcome of its one upstream call:
    the relayed document; 500 with the message of whatever was thrown,
    which is the rejection of [fetch], ["Polygon API error: "] followed
    by the status text of a response that is not [ok] (in the second
    listing only after its body was read), or the rejection of a body
    read. *)
Definition reply (l : Listing) (outcome : Settled Response) : HttpResponse :=
  match outcome with
  | Rejected message => error_response 500 message
  | Fulfilled response =>
      if ok response then
        match json response with
        | Fulfilled data => {| status := 200; body := DataBody data |}
        | Rejected message => error_response 500 message
        end
      else
        match l, text response with
        | KeyInHeaders, Rejected message => error_response 500 message
        | _, _ => error_response 500 ("Polygon API error: " +:+ statusText response)
        end
  end.

(** The message of the 400 that answers a request which fails the
    parameter check of its route. *)
Definition refusal (route : Route) : string :=
  match route with
  | Search => "Query parameter 'q' is required"
  | _ => "from and to date parameters are required (YYYY-MM-DD)"
  end.

(** The upstream calls a handler makes for a request, read off a run
    against a network on which every call fails. *)
Definition calls_of (l : Listing) (key : string) (route : Route) (req : Request)
  : list FetchCall :=
  snd (run (handler l key route req) (λ _ _, Rejected "")).

(** How often the character [a] occurs in [s]. *)
Fixpoint occurrences (a : ascii) (s : string) : nat :=
  match s with
  | "" => 0
  | String b s' => (if Ascii.eqb a b then 1 else 0) + occurrences a s'
  end.

(** The request [req] with the query parameter [name] set to [v]. *)
Definition with_query (name v : string) (req : Request) : Request :=
  {| ticker := ticker req; query := <[name := QString v]> (query req) |}.

(** The request [req] for another ticker. *)
Definition with_ticker (t : string) (req : Request) : Request :=
  {| ticker := t; query := query req |}.

End Spec.

(** * Part V: example inputs *)

Module Examples.
Import JS Client.
Local Open Scope Q_scope.

Definition usd (v : Q) : Metric := {| Client.value := v; unit := "USD" |}.

(** A period that reports only the given revenue and net income. *)
Definition period (fiscal_year : string) (revenue net_income : option Q)
  : FinancialData :=
  {| fiscal_year := fiscal_year; fiscal_period := "FY"; end_date := "";
     financials :=
       {| income_statement :=
            {| revenues := usd <$> revenue;
               net_income_loss := usd <$> net_income;
               gross_profit := None;
               basic_earnings_per_share := None |} |} |}.

(** [{fiscal_year: "2024", financials: {income_statement: {revenues:
    {value: 100_000_000_000}}}}] *)
Definition period_2024 : FinancialData :=
  period "2024" (Some 100000000000) None.

(** A period whose [fiscal_year] is the empty string. *)
Definition period_without_year : FinancialData :=
  period "" (Some 100000000000) None.

(** A period that reports only its earnings per share. *)
Definition period_with_eps (eps : Q) : FinancialData :=
  {| fiscal_year := "2024"; fiscal_period := "FY"; end_date := "";
     financials :=
       {| income_statement :=
            {| revenues := None; net_income_loss := None; gross_profit := None;
               basic_earnings_per_share := Some (usd eps) |} |} |}.

Definition in_2025 : Env := {| getFullYear := 2025; default_locale := en_US |}.
Definition in_2026 : Env := {| getFullYear := 2026; default_locale := en_US |}.
Definition in_2026_de : Env := {| getFullYear := 2026; default_locale := de_DE |}.

(** The periods of 2024 (revenue 100e9, net income 25e9) and 2023
    (nothing reported), newest first. *)
Definition two_periods : FinancialsResponse :=
  {| results := Some [period "2024" (Some 100e9) (Some 25e9); period "2023" None None] |}.

(** A previous session that closed at 10 with its open reported as 0. *)
Definition closed_at_10_open_0 : option PreviousDay.t :=
  Some {| PreviousDay.results := Some [ {| c := Some 10; o := Some 0 |} ] |}.

(** A previous session that opened at 100 and closed at 110. *)
Definition open_100_close_110 : option PreviousDay.t :=
  Some {| PreviousDay.results := Some [ {| c := Some 110; o := Some 100 |} ] |}.

(** Previous sessions that opened at 8 and closed at 7.29 and at 8.67,
    the numbers being those the JSON parser delivers: the binary64
    numbers nearest to the decimals. *)
Definition open_8_close_7_29 : option PreviousDay.t :=
  Some {| PreviousDay.results := Some [ {| c := Some (binary64 7.29); o := Some 8 |} ] |}.
Definition open_8_close_8_67 : option PreviousDay.t :=
  Some {| PreviousDay.results := Some [ {| c := Some (binary64 8.67); o := Some 8 |} ] |}.

(** A previous session that closed at 42 and reports no open. *)
Definition closed_at_42_no_open : option PreviousDay.t :=
  Some {| PreviousDay.results := Some [ {| c := Some 42; o := None |} ] |}.

(** ** Requests and providers *)

Import Server.

(** [GET /api/stocks/search?q=%20] *)
Definition search_for_a_blank : Request :=
  {| ticker := ""; query := {[ "q" := QString " " ]} |}.

(** [GET /api/stocks/search] and [GET /api/stocks/search?q=] *)
Definition search_without_q : Request := {| ticker := ""; query := ∅ |}.
Definition search_for_nothing : Request :=
  {| ticker := ""; query := {[ "q" := QString "" ]} |}.

(** [GET /api/stocks/AAPL/previous] *)
Definition previous_of_AAPL : Request := {| ticker := "AAPL"; query := ∅ |}.

(** A provider that answers every call with [200 OK] and an empty
    document. *)
Definition always_ok : Upstream :=
  λ _ _, Fulfilled {| ok := true; statusText := "OK";
                      text := Fulfilled "{}"; json := Fulfilled "{}" |}.

(** A provider that answers [503 Service Unavailable] and whose
    connection then breaks while the body is read. *)
Definition unavailable_then_broken : Upstream :=
  λ _ _, Fulfilled {| ok := false; statusText := "Service Unavailable";
                      text := Rejected "terminated";
                      json := Rejected "terminated" |}.

(** A provider that answers [429 Too Many Requests] with an error
    document. *)
Definition too_many_requests : Upstream :=
  λ _ _, Fulfilled {| ok := false; statusText := "Too Many Requests";
                      text := Fulfilled "{ status: ERROR }";
                      json := Fulfilled "{ status: ERROR }" |}.

(** A network on which every call fails. *)
Definition unreachable : Upstream := λ _ _, Rejected "fetch failed".

(** [GET /api/stocks/AAPL/aggregates?from=2024-01-01] *)
Definition aggregates_without_to : Request :=
  {| ticker := "AAPL"; query := {[ "from" := QString "2024-01-01" ]} |}.

(** [GET /api/stocks/AAPL/aggregates?from=2024-01-01&to=2024-02-01] *)
Definition aggregates_of_AAPL : Request :=
  {| ticker := "AAPL";
     query := {[ "from" := QString "2024-01-01"; "to" := QString "2024-02-01" ]} |}.

(** [GET /api/stocks/AAPL/financials/income] *)
Definition income_of_AAPL : Request := {| ticker := "AAPL"; query := ∅ |}.

(** A provider that answers every call with [200 OK] and a body that is
    not JSON. *)
Definition ok_but_not_json : Upstream :=
  λ _ _, Fulfilled {| ok := true; statusText := "OK";
                      text := Fulfilled "<html>";
                      json := Rejected "Unexpected token < in JSON at position 0" |}.

End Examples.

(** * Part VI: facts about the built-ins *)

Module JSFacts.
Import JS Spec.

(** ** The built-ins on a few inputs *)

Example toFixed_examples :
  toFixed 2 1.5 = "1.50" ∧ toFixed 2 0.125 = "0.13" ∧ toFixed 2 (-0.001) = "-0.00" ∧
  toFixed 2 (-66.666) = "-66.67" ∧ toFixed 0 2.5 = "3" ∧
  toFixed 2 999999999999999999999 = "999999999999999999999.00" ∧
  toFixed 2 1e21 = "1e+21" ∧ toFixed 2 1.2345e25 = "1.2345e+25".
Proof. by vm_compute. Qed.

Example toLocaleString_examples :
  toLocaleString en_US 999 = "999" ∧ toLocaleString en_US 1234.5678 = "1,234.568" ∧
  toLocaleString de_DE 1234.5678 = "1.234,568" ∧ toLocaleString es_ES 1234 = "1234" ∧
  toLocaleString es_ES 12345 = "12.345" ∧ toLocaleString en_US 999999.9996 = "1,000,000".
Proof. by vm_compute. Qed.

Example Number_toString_examples :
  Number_toString 2025 = "2025" ∧ Number_toString 0 = "0" ∧
  Number_toString (-5) = "-5" ∧ Number_toString (10 ^ 21) = "1e+21".
Proof. by vm_compute. Qed.

Example parseInt_examples :
  parseInt "2024" = Some 2024%Z ∧ parseInt "  -12abc" = Some (-12)%Z ∧
  parseInt "0x1F" = Some 31%Z ∧ parseInt "2024.5" = Some 2024%Z ∧
  parseInt "" = None ∧ parseInt "FY2024" = None ∧ parseInt "-" = None.
Proof. by vm_compute. Qed.

Example Math_round_examples :
  Math_round 15.75 == 16 ∧ Math_round 2.5 == 3 ∧ Math_round (-2.5) == -2 ∧
  Math_round 0.49 == 0 ∧ Math_pow 1.05 2 == 1.1025.
Proof. by vm_compute. Qed.

Example encodeURIComponent_examples :
  encodeURIComponent "AAPL" = "AAPL" ∧ encodeURIComponent " " = "%20" ∧
  encodeURIComponent "a b&c=d/e" = "a%20b%26c%3Dd%2Fe" ∧
  encodeURIComponent "BRK.A" = "BRK.A".
Proof. by vm_compute. Qed.

(** ** Strings *)

Lemma string_app_nil (t : string) : "" +:+ t = t.
Proof. reflexivity. Qed.

Lemma string_app_cons (a : ascii) (s t : string) :
  String a s +:+ t = String a (s +:+ t).
Proof. reflexivity. Qed.

Lemma string_app_assoc (s t u : string) : (s +:+ t) +:+ u = s +:+ (t +:+ u).
Proof.
  induction s as [|a s IH]; [done|]. by rewrite !string_app_cons, IH.
Qed.

Lemma string_app_empty_r (s : string) : s +:+ "" = s.
Proof. induction s as [|a s IH]; [done|]. by rewrite string_app_cons, IH. Qed.

Lemma string_length_app (s t : string) :
  String.length (s +:+ t) = (String.length s + String.length t)%nat.
Proof.
  induction s as [|a s IH]; [done|]. rewrite string_app_cons. simpl. by rewrite IH.
Qed.

Lemma substring_app_l (s t : string) :
  substring 0 (String.length s) (s +:+ t) = s.
Proof.
  induction s as [|a s IH]; [by destruct t|].
  rewrite string_app_cons. simpl. by rewrite IH.
Qed.

Lemma substring_app_r (s t : string) :
  substring (String.length s) (String.length t) (s +:+ t) = t.
Proof.
  induction s as [|a s IH]; [|by rewrite string_app_cons].
  rewrite string_app_nil. simpl.
  induction t as [|b t IHt]; simpl; [done|]. by rewrite IHt.
Qed.

(** ** Decimal digits *)

Lemma log2_div10 (n : N) : (10 <= n)%N → (N.log2 (n / 10) < N.log2 n)%N.
Proof.
  intros Hn.
  assert (Hle : (n / 10 <= n / 2)%N) by (apply N.div_le_compat_l; lia).
  apply N.log2_le_mono in Hle.
  rewrite <- N.div2_div, N.div2_spec, N.log2_shiftr in Hle.
  assert (0 < N.log2 n)%N by (apply N.log2_pos; lia).
  lia.
Qed.

Lemma digits_fuel_acc (fuel : nat) (n : N) (acc : string) :
  digits_fuel fuel n acc = digits_fuel fuel n "" +:+ acc.
Proof.
  revert n acc. induction fuel as [|fuel IH]; intros n acc; simpl; [done|].
  destruct (n <? 10)%N; [done|].
  rewrite IH, (IH _ (String _ "")).
  by rewrite string_app_assoc.
Qed.

Lemma digits_fuel_enough (f1 f2 : nat) (n : N) (acc : string) :
  (N.log2 n <= N.of_nat f1)%N → (N.log2 n <= N.of_nat f2)%N →
  digits_fuel f1 n acc = digits_fuel f2 n acc.
Proof.
  revert f2 n acc. induction f1 as [|f1 IH]; intros f2 n acc H1 H2.
  - assert (n < 10)%N.
    { destruct (decide (n < 10)%N) as [|Hge]; [done|].
      pose proof (log2_div10 n). lia. }
    destruct f2; simpl; [done|]. by rewrite (proj2 (N.ltb_lt _ _)).
  - simpl. destruct (n <? 10)%N eqn:Hlt.
    + destruct f2; simpl; [done|]. by rewrite Hlt.
    + apply N.ltb_ge in Hlt. pose proof (log2_div10 n Hlt).
      destruct f2 as [|f2]; [lia|]. simpl.
      rewrite (proj2 (N.ltb_ge _ _)) by done.
      apply IH; lia.
Qed.

Lemma N_digits_small (n : N) :
  (n < 10)%N → N_digits n = String (digit_char n) "".
Proof.
  intros Hn. unfold N_digits.
  destruct (N.to_nat (N.log2 n)); simpl; rewrite N.mod_small by done; [done|].
  by rewrite (proj2 (N.ltb_lt _ _)).
Qed.

Lemma N_digits_step (n : N) :
  (10 <= n)%N →
  N_digits n = N_digits (n / 10) +:+ String (digit_char (n mod 10)) "".
Proof.
  intros Hn. unfold N_digits. pose proof (log2_div10 n Hn) as Hlog.
  destruct (N.to_nat (N.log2 n)) as [|f] eqn:Hf; [lia|]. simpl.
  rewrite (proj2 (N.ltb_ge _ _)) by done.
  rewrite digits_fuel_acc. f_equal.
  apply digits_fuel_enough; lia.
Qed.

Lemma N_digits_last2 (n : N) :
  (100 <= n)%N →
  N_digits n = N_digits (n / 100)
               +:+ String (digit_char (n / 10 mod 10)) (String (digit_char (n mod 10)) "").
Proof.
  intros Hn. rewrite N_digits_step by lia.
  assert (10 <= n / 10)%N by (apply N.div_le_lower_bound; lia).
  rewrite (N_digits_step (n / 10)) by done.
  rewrite N.Div0.div_div. change (10 * 10)%N with 100%N.
  by rewrite string_app_assoc.
Qed.

(** Induction along the digits of a number. *)
Lemma N_digits_ind (P : N → Prop) :
  (∀ n, (n < 10)%N → P n) →
  (∀ n, (10 <= n)%N → P (n / 10)%N → P n) →
  ∀ n, P n.
Proof.
  intros Hsmall Hstep n.
  induction n as [n IH] using (well_founded_induction N.lt_wf_0).
  destruct (decide (n < 10)%N) as [|Hge]; [by apply Hsmall|].
  apply Hstep; [lia|]. apply IH. apply N.div_lt; lia.
Qed.

Lemma is_digit_digit_char (d : N) : (d < 10)%N → is_digit (digit_char d) = true.
Proof.
  intros Hd. unfold is_digit, digit_char.
  rewrite N_ascii_embedding by lia.
  apply andb_true_iff; split; apply N.leb_le; lia.
Qed.

Lemma all_digits_app (s t : string) :
  all_digits (s +:+ t) = all_digits s && all_digits t.
Proof.
  induction s as [|a s IH]; [done|].
  rewrite string_app_cons. simpl. by rewrite IH, andb_assoc.
Qed.

Lemma all_digits_N_digits (n : N) : all_digits (N_digits n) = true.
Proof.
  induction n as [n Hn|n Hn IH] using N_digits_ind.
  - rewrite N_digits_small by done. simpl.
    by rewrite is_digit_digit_char.
  - rewrite N_digits_step, all_digits_app, IH by done. simpl.
    rewrite is_digit_digit_char; [done|]. apply N.mod_lt; lia.
Qed.

Lemma N_digits_length_pos (n : N) : (0 < String.length (N_digits n))%nat.
Proof.
  destruct (decide (n < 10)%N).
  - rewrite N_digits_small by done. simpl. lia.
  - rewrite N_digits_step, string_length_app by lia. simpl. lia.
Qed.

(** ** Numbers are compared up to [==] *)

(** Literals such as [1e9] stand for [1 * (10 ^ 9 # 1)]; [q_literals]
    evaluates their powers of ten so that [lra] reads them. *)
Ltac q_literals :=
  repeat match goal with
    | |- context [Z.pow_pos ?b ?e] =>
        let v := eval vm_compute in (Z.pow_pos b e) in
        change (Z.pow_pos b e) with v
    | H : context [Z.pow_pos ?b ?e] |- _ =>
        let v := eval vm_compute in (Z.pow_pos b e) in
        change (Z.pow_pos b e) with v in H
    end.

Ltac qlra := q_literals; lra.

#[global] Instance Qlt_bool_comp : Proper (Qeq ==> Qeq ==> eq) Qlt_bool.
Proof. intros x x' Hx y y' Hy. unfold Qlt_bool. by rewrite Hx, Hy. Qed.

#[global] Instance truthy_number_comp : Proper (Qeq ==> eq) truthy_number.
Proof. intros x x' Hx. unfold truthy_number. by rewrite Hx. Qed.

#[global] Instance Qfloor_proper : Proper (Qeq ==> eq) Qfloor.
Proof. exact Qfloor_comp. Qed.

#[global] Instance round_scaled_comp (f : nat) : Proper (Qeq ==> eq) (round_scaled f).
Proof. intros x x' Hx. unfold round_scaled. by rewrite Hx. Qed.

#[global] Instance Math_round_comp : Proper (Qeq ==> eq) Math_round.
Proof. intros x x' Hx. unfold Math_round. by rewrite Hx. Qed.

#[global] Instance exp_notation_comp : Proper (Qeq ==> eq) exp_notation.
Proof.
  intros x x' Hx. unfold exp_notation.
  rewrite (Qfloor_comp x x' Hx).
  set (n := Z.of_nat _).
  assert (Qfloor (x / inject_Z (10 ^ (n - 17)) + 0.5)
          = Qfloor (x' / inject_Z (10 ^ (n - 17)) + 0.5)) as ->; [|done].
  by rewrite Hx.
Qed.

#[global] Instance toFixed_comp (f : nat) : Proper (Qeq ==> eq) (toFixed f).
Proof.
  intros x x' Hx. unfold toFixed.
  assert (Qabs x == Qabs x') as Habs by (by rewrite Hx).
  assert (Qlt_bool x 0 = Qlt_bool x' 0) as -> by (by rewrite Hx).
  assert (Qle_bool (inject_Z (10 ^ 21)) (Qabs x)
          = Qle_bool (inject_Z (10 ^ 21)) (Qabs x')) as -> by (by rewrite Habs).
  assert (exp_notation (Qabs x) = exp_notation (Qabs x')) as -> by (by rewrite Habs).
  assert (round_scaled f (Qabs x) = round_scaled f (Qabs x')) as -> by (by rewrite Habs).
  done.
Qed.

#[global] Instance toLocaleString_comp (loc : Locale) :
  Proper (Qeq ==> eq) (toLocaleString loc).
Proof.
  intros x x' Hx. unfold toLocaleString.
  assert (Qabs x == Qabs x') as Habs by (by rewrite Hx).
  assert (Qlt_bool x 0 = Qlt_bool x' 0) as -> by (by rewrite Hx).
  assert (round_scaled 3 (Qabs x) = round_scaled 3 (Qabs x')) as -> by (by rewrite Habs).
  done.
Qed.

Lemma Qlt_bool_iff (x y : Q) : Qlt_bool x y = true ↔ (x < y)%Q.
Proof.
  unfold Qlt_bool. rewrite negb_true_iff, <- not_true_iff_false, Qle_bool_iff.
  split; [apply Qnot_le_lt|apply Qlt_not_le].
Qed.

Lemma Qlt_bool_false_iff (x y : Q) : Qlt_bool x y = false ↔ (y <= x)%Q.
Proof.
  unfold Qlt_bool. by rewrite negb_false_iff, Qle_bool_iff.
Qed.

Lemma Qle_bool_false_iff (x y : Q) : Qle_bool x y = false ↔ (y < x)%Q.
Proof.
  rewrite <- not_true_iff_false, Qle_bool_iff.
  split; [apply Qnot_le_lt|apply Qlt_not_le].
Qed.

Lemma round_scaled_nonneg (f : nat) (x : Q) : (0 <= x)%Q → (0 <= round_scaled f x)%Z.
Proof.
  intros Hx. unfold round_scaled.
  change 0%Z with (Qfloor 0). apply Qfloor_resp_le.
  assert (0 <= inject_Z (10 ^ Z.of_nat f))%Q.
  { change 0%Q with (inject_Z 0). rewrite <- Zle_Qle. apply Z.pow_nonneg. lia. }
  assert (0 <= x * inject_Z (10 ^ Z.of_nat f))%Q by (by apply Qmult_le_0_compat).
  apply Qle_trans with (x * inject_Z (10 ^ Z.of_nat f) + 0)%Q.
  - by rewrite Qplus_0_r.
  - apply Qplus_le_r. done.
Qed.

(** ** [toFixed(2)] below 1e21 is the two-decimal rendering *)

Lemma toFixed_2_digits (n : N) :
  let m := N_digits n in
  let k := String.length m in
  let m' := if (k <=? 2)%nat then zeros (2 + 1 - k) +:+ m else m in
  let k' := String.length m' in
  substring 0 (k' - 2) m' +:+ "." +:+ substring (k' - 2) 2 m'
  = N_digits (n / 100) +:+ "."
    +:+ String (digit_char (n / 10 mod 10)) (String (digit_char (n mod 10)) "").
Proof.
  destruct (decide (n < 10)%N) as [H10|H10]; [|destruct (decide (n < 100)%N) as [H100|H100]].
  - rewrite N_digits_small by done. simpl.
    rewrite (N.div_small n 100), (N.div_small n 10), (N.mod_small n 10) by lia.
    done.
  - rewrite N_digits_step by lia.
    assert (n / 10 < 10)%N by (apply N.Div0.div_lt_upper_bound; lia).
    rewrite N_digits_small by done. simpl.
    rewrite (N.div_small n 100), (N.mod_small (n / 10)) by lia.
    done.
  - rewrite N_digits_last2 by lia.
    set (a := N_digits (n / 100)).
    set (b := String _ (String _ "")).
    pose proof (N_digits_length_pos (n / 100)) as Hpos. fold a in Hpos.
    simpl. rewrite string_length_app. change (String.length b) with 2%nat.
    rewrite (proj2 (Nat.leb_gt _ _)) by lia.
    rewrite string_length_app. change (String.length b) with 2%nat.
    replace (String.length a + 2 - 2)%nat with (String.length a) by lia.
    rewrite substring_app_l.
    change 2%nat with (String.length b) at 1. by rewrite substring_app_r.
Qed.

Lemma toFixed_2_spec (x : Q) :
  (Qabs x < inject_Z (10 ^ 21))%Q → toFixed 2 x = two_decimal_places x.
Proof.
  intros Hx. unfold toFixed, two_decimal_places.
  rewrite (proj2 (Qle_bool_false_iff _ _) Hx).
  unfold Z_digits. cbv zeta. f_equal.
  apply (toFixed_2_digits (Z.to_N (round_scaled 2 (Qabs x)))).
Qed.

Lemma toFixed_2_zero (x : Q) : x == 0 → toFixed 2 x = "0.00".
Proof. intros ->. reflexivity. Qed.

(** ** [parseInt] reads back what [Number.prototype.toString] wrote *)

Lemma ascii_eqb_N (a b : ascii) :
  Ascii.eqb a b = (N_of_ascii a =? N_of_ascii b)%N.
Proof.
  destruct (Ascii.eqb_spec a b) as [->|Hne]; symmetry.
  - apply N.eqb_refl.
  - apply N.eqb_neq. intros Heq. apply Hne.
    by rewrite <- (ascii_N_embedding a), <- (ascii_N_embedding b), Heq.
Qed.

Lemma N_of_digit_char (d : N) : (d < 10)%N → N_of_ascii (digit_char d) = (48 + d)%N.
Proof. intros Hd. unfold digit_char. apply N_ascii_embedding. lia. Qed.

Lemma is_digit_range (a : ascii) :
  is_digit a = true ↔ (48 <= N_of_ascii a <= 57)%N.
Proof. unfold is_digit. rewrite andb_true_iff, !N.leb_le. done. Qed.

Lemma digit_value_digit_char (d : N) :
  (d < 10)%N → digit_value 10 (digit_char d) = Some d.
Proof.
  intros Hd. unfold digit_value. rewrite N_of_digit_char by done.
  rewrite (proj2 (N.leb_le 48 (48 + d))), (proj2 (N.leb_le (48 + d) 57)) by lia.
  simpl. replace (48 + d - 48)%N with d by lia.
  by rewrite (proj2 (N.ltb_lt d 10)).
Qed.

Lemma parse_digits_N_digits (n : N) (acc : option N) (s : string) :
  parse_digits 10 (N_digits n +:+ s) acc
  = parse_digits 10 s
      (Some (default 0 acc * 10 ^ N.of_nat (String.length (N_digits n)) + n)%N).
Proof.
  revert acc s. induction n as [n Hn|n Hn IH] using N_digits_ind; intros acc s.
  - rewrite N_digits_small, string_app_cons by done. simpl.
    rewrite digit_value_digit_char by done. do 2 f_equal. lia.
  - rewrite N_digits_step, string_app_assoc, IH, string_app_cons by done.
    simpl. rewrite digit_value_digit_char by (apply N.mod_lt; lia).
    do 2 f_equal. rewrite string_length_app. simpl.
    rewrite Nat2N.inj_add, N.pow_add_r. change (10 ^ N.of_nat 1)%N with 10%N.
    pose proof (N.div_mod n 10). lia.
Qed.

Lemma N_digits_head (n : N) :
  ∃ a rest, N_digits n = String a rest ∧ is_digit a = true.
Proof.
  induction n as [n Hn|n Hn (a & rest & Heq & Ha)] using N_digits_ind.
  - rewrite N_digits_small by done. eauto using is_digit_digit_char.
  - rewrite N_digits_step, Heq, string_app_cons by done. eauto.
Qed.

Lemma skip_white_head (a : ascii) (s : string) :
  (N_of_ascii a < 128)%N → is_ascii_white (N_of_ascii a) = false →
  skip_white (String a s) = String a s.
Proof.
  intros Ha Hw. simpl. rewrite Hw.
  destruct s as [|b [|c s]]; [done| |].
  - by rewrite (proj2 (N.eqb_neq _ 194)) by lia.
  - rewrite (proj2 (N.eqb_neq _ 194)) by lia. simpl.
    unfold is_white3.
    by rewrite (proj2 (N.eqb_neq _ 225)), (proj2 (N.eqb_neq _ 226)),
      (proj2 (N.eqb_neq _ 227)), (proj2 (N.eqb_neq _ 239)) by lia.
Qed.

Lemma is_digit_not_white (a : ascii) :
  is_digit a = true → is_ascii_white (N_of_ascii a) = false.
Proof.
  rewrite is_digit_range. intros Ha. unfold is_ascii_white.
  rewrite (proj2 (N.leb_gt _ 13)), (proj2 (N.eqb_neq _ 32)) by lia.
  by rewrite andb_false_r.
Qed.

(** A numeral is read in base ten to the end: it has no [0x] prefix. *)
Lemma parse_magnitude_N_digits (n : N) (sign : Z) :
  parse_magnitude sign (N_digits n) = Some (sign * Z.of_N n)%Z.
Proof.
  assert (parse_digits 10 (N_digits n) None = Some n) as Hparse.
  { rewrite <- (string_app_empty_r (N_digits n)), parse_digits_N_digits. simpl.
    f_equal; lia. }
  pose proof (all_digits_N_digits n) as Hall. unfold parse_magnitude.
  destruct (N_digits n) as [|a [|b r]]; [by rewrite Hparse..|].
  simpl in Hall. apply andb_true_iff in Hall as [_ [Hb _]%andb_true_iff].
  apply is_digit_range in Hb.
  rewrite !(ascii_eqb_N b). change (N_of_ascii "x") with 120%N.
  change (N_of_ascii "X") with 88%N.
  rewrite (proj2 (N.eqb_neq _ 120)), (proj2 (N.eqb_neq _ 88)) by lia.
  rewrite andb_false_r. by rewrite Hparse.
Qed.

Lemma parseInt_Number_toString (y : Z) :
  (Z.abs y < 10 ^ 21)%Z → parseInt (Number_toString y) = Some y.
Proof.
  intros Hy. unfold Number_toString.
  rewrite (proj2 (Z.ltb_lt _ _) Hy). unfold Z_digits, parseInt.
  destruct (Z.ltb_spec y 0) as [Hneg|Hpos].
  - rewrite string_app_cons, string_app_nil.
    rewrite skip_white_head by (vm_compute; done).
    change (Ascii.eqb "-" "-") with true. cbv iota.
    rewrite parse_magnitude_N_digits. f_equal. lia.
  - rewrite string_app_nil.
    destruct (N_digits_head (Z.to_N (Z.abs y))) as (a & rest & Heq & Ha).
    pose proof Ha as Hrange. apply is_digit_range in Hrange.
    rewrite Heq, skip_white_head by (lia || by apply is_digit_not_white).
    rewrite !(ascii_eqb_N a). change (N_of_ascii "-") with 45%N.
    change (N_of_ascii "+") with 43%N.
    rewrite (proj2 (N.eqb_neq _ 45)), (proj2 (N.eqb_neq _ 43)) by lia.
    rewrite <- Heq, parse_magnitude_N_digits. f_equal. lia.
Qed.

(** ** Binary64 rounding *)


Lemma two_power_pos (z : Z) : 0 < 2 ^ z.
Proof. by apply Qpower_0_lt. Qed.

Lemma two_power_succ (z : Z) : 2 ^ (z + 1) == 2 * 2 ^ z.
Proof. rewrite Qpower_plus by done. change (2 ^ 1) with 2. ring. Qed.

Lemma two_power_minus (a b : Z) : 2 ^ (a - b) == 2 ^ a / 2 ^ b.
Proof. by apply Qpower_minus. Qed.

Lemma two_power_inject (z : Z) : (0 <= z)%Z → inject_Z (2 ^ z) == 2 ^ z.
Proof. intros Hz. by rewrite Zpower_Qpower. Qed.

(** [binade] finds the power of two below a positive number. *)
Lemma binade_spec (x : Q) :
  0 < x → 2 ^ binade x <= x ∧ x < 2 ^ (binade x + 1).
Proof.
  destruct x as [n d]. intros Hx.
  assert (0 < n)%Z as Hn by (unfold Qlt in Hx; simpl in Hx; lia).
  unfold binade. cbn [Qnum Qden].
  set (a := Z.log2 n). set (b := Z.log2 (Z.pos d)).
  destruct (Z.log2_spec n Hn) as [Hn1 Hn2]. fold a in Hn1, Hn2.
  destruct (Z.log2_spec (Z.pos d) ltac:(lia)) as [Hd1 Hd2]. fold b in Hd1, Hd2.
  assert (0 <= a)%Z as Ha by apply Z.log2_nonneg.
  assert (0 <= b)%Z as Hb by apply Z.log2_nonneg.
  assert (n # d == inject_Z n / inject_Z (Z.pos d)) as Hfrac by apply Qmake_Qdiv.
  assert (0 < inject_Z (Z.pos d)) as Hdpos by (rewrite <- (Zlt_Qlt 0); lia).
  assert (inject_Z n < 2 ^ (a + 1)) as Hn2'.
  { rewrite <- two_power_inject by lia. by rewrite <- Zlt_Qlt. }
  assert (2 ^ a <= inject_Z n) as Hn1'.
  { rewrite <- two_power_inject by lia. by rewrite <- Zle_Qle. }
  assert (2 ^ b <= inject_Z (Z.pos d)) as Hd1'.
  { rewrite <- two_power_inject by lia. by rewrite <- Zle_Qle. }
  assert (inject_Z (Z.pos d) < 2 ^ (b + 1)) as Hd2'.
  { rewrite <- two_power_inject by lia. by rewrite <- Zlt_Qlt. }
  pose proof (two_power_pos a) as Hpa. pose proof (two_power_pos b) as Hpb.
  pose proof (two_power_pos (a - b)) as Hpab.
  assert (2 ^ (a - b) * 2 ^ b == 2 ^ a) as Hab.
  { rewrite two_power_minus. field. lra. }
  assert (n # d < 2 ^ (a - b + 1)) as Hupper.
  { rewrite Hfrac, two_power_succ. apply Qlt_shift_div_r; [done|].
    rewrite two_power_succ in Hn2'. nra. }
  destruct (Qle_bool (2 ^ (a - b)) (n # d)) eqn:Htest.
  - apply Qle_bool_iff in Htest. by split.
  - apply Qle_bool_false_iff in Htest. split.
    + rewrite Hfrac. apply Qle_shift_div_l; [done|].
      assert (2 ^ (a - b) == 2 * 2 ^ (a - b - 1)) as Hhalf.
      { rewrite <- two_power_succ. by replace (a - b - 1 + 1)%Z with (a - b)%Z by lia. }
      pose proof (two_power_pos (a - b - 1)).
      rewrite two_power_succ in Hd2'. nra.
    + by replace (a - b - 1 + 1)%Z with (a - b)%Z by lia.
Qed.

Lemma binade_unique (x : Q) (e : Z) :
  2 ^ e <= x → x < 2 ^ (e + 1) → binade x = e.
Proof.
  intros Hlow Hhigh.
  assert (0 < x) as Hx by (pose proof (two_power_pos e); lra).
  destruct (binade_spec x Hx) as [Hlow' Hhigh'].
  assert (2 ^ e < 2 ^ (binade x + 1)) as H1 by lra.
  assert (2 ^ binade x < 2 ^ (e + 1)) as H2 by lra.
  apply Qpower_lt_compat_l_inv in H1; [|done].
  apply Qpower_lt_compat_l_inv in H2; [|done]. lia.
Qed.

#[global] Instance round_half_even_comp : Proper (Qeq ==> eq) round_half_even.
Proof.
  intros x y Hxy. unfold round_half_even.
  assert (Qfloor x = Qfloor y) as -> by (by rewrite Hxy).
  assert (Qcompare (x - inject_Z (Qfloor y)) (1 # 2)
          = Qcompare (y - inject_Z (Qfloor y)) (1 # 2)) as ->; [|done].
  by rewrite Hxy.
Qed.

(** Rounding to the nearest integer moves a number by at most one half,
    keeps the order and leaves the integers where they are. *)
Lemma round_half_even_close (x : Q) :
  x - 0.5 <= inject_Z (round_half_even x) ∧ inject_Z (round_half_even x) <= x + 0.5.
Proof.
  unfold round_half_even.
  pose proof (Qfloor_le x) as Hfloor. pose proof (Qlt_floor x) as Hceil.
  rewrite inject_Z_plus in Hceil. change (inject_Z 1) with 1 in Hceil.
  destruct (Qcompare_spec (x - inject_Z (Qfloor x)) (1 # 2)) as [Heq|Hlt|Hgt].
  - destruct (Z.even (Qfloor x)); [|rewrite inject_Z_plus; change (inject_Z 1) with 1];
      set (n := inject_Z _) in *; clearbody n; split; lra.
  - set (n := inject_Z _) in *; clearbody n; split; lra.
  - rewrite inject_Z_plus; change (inject_Z 1) with 1.
    set (n := inject_Z _) in *; clearbody n; split; lra.
Qed.

Lemma round_half_even_bounds (x : Q) :
  (Qfloor x <= round_half_even x <= Qfloor x + 1)%Z.
Proof.
  unfold round_half_even.
  destruct (Qcompare _ _); [destruct (Z.even _)|..]; lia.
Qed.

Lemma round_half_even_mono (x y : Q) :
  x <= y → (round_half_even x <= round_half_even y)%Z.
Proof.
  intros Hxy. pose proof (Qfloor_resp_le _ _ Hxy) as Hfloor.
  destruct (Z.eq_dec (Qfloor x) (Qfloor y)) as [Heq|Hne].
  - unfold round_half_even. rewrite Heq.
    destruct (Qcompare_spec (x - inject_Z (Qfloor y)) (1 # 2)) as [Hx|Hx|Hx];
      destruct (Qcompare_spec (y - inject_Z (Qfloor y)) (1 # 2)) as [Hy|Hy|Hy];
      try destruct (Z.even (Qfloor y)); try lia;
      set (n := inject_Z _) in *; clearbody n; lra.
  - pose proof (round_half_even_bounds x). pose proof (round_half_even_bounds y). lia.
Qed.

Lemma round_half_even_inject_Z (z : Z) : round_half_even (inject_Z z) = z.
Proof.
  unfold round_half_even. rewrite Qfloor_Z.
  destruct (Qcompare_spec (inject_Z z - inject_Z z) (1 # 2)) as [H|H|H]; [lra|done|lra].
Qed.

(** *** The rounded number *)

(** On these inputs [binary64] and the three operations give what the
    floats of the machine give: the decimals 7.29, 8.67 and 0.1, the
    percentage of a close of 7.29 after an open of 8, quotients of
    [formatCurrency], and 1e33. *)
Example binary64_agrees_with_the_machine :
  let float (n d : Z) := PrimFloat.div (float_of_Z n) (float_of_Z d) in
  float_value (float 729%Z 100%Z) = Some (binary64 7.29) ∧
  float_value (float 867%Z 100%Z) = Some (binary64 8.67) ∧
  float_value (float 1%Z 10%Z) = Some (binary64 0.1) ∧
  float_value (float (-2)%Z 3%Z) = Some (binary64 (-2 # 3)) ∧
  float_value (PrimFloat.mul
                 (PrimFloat.div (PrimFloat.sub (float 729%Z 100%Z) (float_of_Z 8%Z))
                                (float_of_Z 8%Z))
                 (float_of_Z 100%Z))
  = Some (Number_multiply
            (Number_divide (Number_subtract (binary64 7.29) 8) 8) 100) ∧
  float_value (PrimFloat.mul
                 (PrimFloat.div (PrimFloat.sub (float 867%Z 100%Z) (float_of_Z 8%Z))
                                (float_of_Z 8%Z))
                 (float_of_Z 100%Z))
  = Some (Number_multiply
            (Number_divide (Number_subtract (binary64 8.67) 8) 8) 100) ∧
  float_value (float 1005000%Z 1000000%Z) = Some (Number_divide 1005000 1e6) ∧
  float_value (float 2675000000000%Z 1000000000000%Z)
  = Some (Number_divide 2675000000000 1e12) ∧
  float_value (PrimFloat.mul (float_of_Z (10 ^ 18)%Z) (float_of_Z (10 ^ 15)%Z))
  = Some (binary64 1e33) ∧
  float_value (PrimFloat.div
                 (PrimFloat.mul (float_of_Z (10 ^ 18)%Z) (float_of_Z (10 ^ 15)%Z))
                 (float_of_Z (10 ^ 12)%Z))
  = Some (Number_divide (binary64 1e33) 1e12).
Proof. by vm_compute. Qed.


#[global] Instance binary64_comp : Proper (Qeq ==> eq) binary64.
Proof. intros x y Hxy. unfold binary64. by rewrite (Qred_complete _ _ Hxy). Qed.

#[global] Instance binary64_comp_Qeq : Proper (Qeq ==> Qeq) binary64.
Proof. intros x y Hxy. by rewrite (binary64_comp _ _ Hxy). Qed.

Lemma binary64_zero (x : Q) : x == 0 → binary64 x = 0.
Proof. intros ->. reflexivity. Qed.

Lemma binade_comp (x y : Q) : 0 < x → x == y → binade x = binade y.
Proof.
  intros Hx Hxy. symmetry. destruct (binade_spec x Hx) as [Hlow Hhigh].
  apply binade_unique; by rewrite <- Hxy.
Qed.

(** The significand of a positive number, scaled to 53 bits. *)
Lemma significand_range (x : Q) :
  0 < x → 2 ^ 52 <= x * 2 ^ (52 - binade x) ∧ x * 2 ^ (52 - binade x) < 2 ^ 53.
Proof.
  intros Hx. destruct (binade_spec x Hx) as [Hlow Hhigh].
  pose proof (two_power_pos (binade x)) as He.
  assert (2 ^ (52 - binade x) == 2 ^ 52 / 2 ^ binade x) as -> by apply two_power_minus.
  rewrite two_power_succ in Hhigh.
  assert (x * (2 ^ 52 / 2 ^ binade x) == 2 ^ 52 * (x / 2 ^ binade x)) as ->
    by (field; lra).
  assert (1 <= x / 2 ^ binade x) as H1 by (apply Qle_shift_div_l; lra).
  assert (x / 2 ^ binade x < 2) as H2 by (apply Qlt_shift_div_r; lra).
  change (2 ^ 53) with (2 ^ 52 * 2). change (2 ^ 52) with 4503599627370496.
  split; lra.
Qed.

Lemma binary64_positive (x : Q) :
  0 < x →
  binary64 x
  == inject_Z (round_half_even (x * 2 ^ (52 - binade x))) / 2 ^ (52 - binade x).
Proof.
  intros Hx. unfold binary64.
  assert (Qred x == x) as Hred by apply Qred_correct.
  assert (0 < Qred x) as Hx' by (by rewrite Hred).
  destruct (Qeq_bool (Qred x) 0) eqn:Hzero.
  { apply Qeq_bool_iff in Hzero. lra. }
  rewrite (proj2 (Qle_bool_iff 0 (Qred x))) by lra.
  rewrite Qred_correct.
  assert (Qabs (Qred x) == x) as Habs by (rewrite Qabs_pos; lra).
  assert (binade (Qabs (Qred x)) = binade x) as ->
    by (apply binade_comp; [rewrite Habs|]; done).
  by rewrite Habs.
Qed.

Lemma binary64_opp (x : Q) : binary64 (- x) == - binary64 x.
Proof.
  unfold binary64. rewrite Qred_opp.
  destruct (Qeq_bool (Qred x) 0) eqn:Hzero.
  - apply Qeq_bool_iff in Hzero.
    rewrite (proj2 (Qeq_bool_iff (- Qred x) 0)); [done|]. lra.
  - assert (¬ Qred x == 0) as Hnz by (by intros ?%Qeq_bool_iff; congruence).
    destruct (Qeq_bool (- Qred x) 0) eqn:Hzero'.
    { apply Qeq_bool_iff in Hzero'. lra. }
    assert (Qabs (- Qred x) = Qabs (Qred x)) as ->.
    { destruct (Qred x) as [n d]. unfold Qabs, Qopp. simpl. by rewrite Z.abs_opp. }
    rewrite !Qred_correct.
    set (m := inject_Z _). set (p := 2 ^ _).
    destruct (Qle_bool 0 (Qred x)) eqn:Hsign.
    + apply Qle_bool_iff in Hsign.
      rewrite (proj2 (Qle_bool_false_iff 0 (- Qred x))) by lra.
      rewrite (Qred_correct (m / p)). unfold Qdiv. ring.
    + apply Qle_bool_false_iff in Hsign.
      rewrite (proj2 (Qle_bool_iff 0 (- Qred x))) by lra.
      rewrite (Qred_correct (- m / p)). unfold Qdiv. ring.
Qed.

(** Rounding moves a number by at most the fraction 2^-53 of itself. *)
Lemma binary64_error_positive (x : Q) :
  0 < x →
  x - x * (1 # 2 ^ 53) <= binary64 x ∧ binary64 x <= x + x * (1 # 2 ^ 53).
Proof.
  intros Hx. rewrite (binary64_positive x Hx).
  destruct (significand_range x Hx) as [Hlow _].
  destruct (round_half_even_close (x * 2 ^ (52 - binade x))) as [Hm1 Hm2].
  pose proof (two_power_pos (52 - binade x)) as Hp.
  set (p := 2 ^ (52 - binade x)) in *. set (m := inject_Z _) in *. clearbody m p.
  change (2 ^ 52) with 4503599627370496 in Hlow.
  change (1 # 2 ^ 53) with (1 # 9007199254740992).
  split.
  - apply Qle_shift_div_l; [done|]. nra.
  - apply Qle_shift_div_r; [done|]. nra.
Qed.

Lemma binary64_pos (x : Q) : 0 < x → 0 < binary64 x.
Proof.
  intros Hx. destruct (binary64_error_positive x Hx) as [Hlow _].
  change (1 # 2 ^ 53) with (1 # 9007199254740992) in Hlow. lra.
Qed.

Lemma binary64_neg (x : Q) : x < 0 → binary64 x < 0.
Proof.
  intros Hx. assert (0 < binary64 (- x)) as Hpos by (apply binary64_pos; lra).
  rewrite binary64_opp in Hpos. lra.
Qed.

Lemma binary64_nonneg (x : Q) : 0 <= x → 0 <= binary64 x.
Proof.
  intros Hx. destruct (Qeq_dec x 0) as [Hzero|Hnz].
  - by rewrite (binary64_zero x Hzero).
  - apply Qlt_le_weak, binary64_pos. lra.
Qed.

Lemma binary64_error (x : Q) :
  Qabs (binary64 x - x) <= Qabs x * (1 # 2 ^ 53).
Proof.
  change (1 # 2 ^ 53) with (1 # 9007199254740992).
  destruct (Q_dec x 0) as [[Hneg|Hpos]|Hzero].
  - destruct (binary64_error_positive (- x)) as [Hlow Hhigh]; [lra|].
    rewrite binary64_opp in Hlow, Hhigh.
    change (1 # 2 ^ 53) with (1 # 9007199254740992) in Hlow, Hhigh.
    rewrite (Qabs_neg x) by lra.
    apply (proj2 (Qabs_Qle_condition _ _)). split; lra.
  - destruct (binary64_error_positive x Hpos) as [Hlow Hhigh].
    change (1 # 2 ^ 53) with (1 # 9007199254740992) in Hlow, Hhigh.
    rewrite (Qabs_pos x) by lra.
    apply (proj2 (Qabs_Qle_condition _ _)). split; lra.
  - rewrite (binary64_zero x Hzero), Hzero. by vm_compute.
Qed.

(** A number that lies in a binade is rounded on the grid of that
    binade. *)
Lemma binary64_in_binade (x : Q) (e : Z) :
  2 ^ e <= x → x < 2 ^ (e + 1) →
  binary64 x == inject_Z (round_half_even (x * 2 ^ (52 - e))) / 2 ^ (52 - e).
Proof.
  intros Hlow Hhigh.
  assert (0 < x) as Hx by (pose proof (two_power_pos e); lra).
  by rewrite (binary64_positive x Hx), (binade_unique x e Hlow Hhigh).
Qed.

(** Rounding keeps the order. *)
Lemma binary64_mono_positive (x y : Q) :
  0 < x → x <= y → binary64 x <= binary64 y.
Proof.
  intros Hx Hxy. assert (0 < y) as Hy by lra.
  destruct (binade_spec x Hx) as [Hx1 Hx2]. destruct (binade_spec y Hy) as [Hy1 Hy2].
  assert (binade x <= binade y)%Z as Hbinade.
  { assert (2 ^ binade x < 2 ^ (binade y + 1)) as Hlt by lra.
    apply Qpower_lt_compat_l_inv in Hlt; [lia|done]. }
  rewrite (binary64_positive x Hx), (binary64_positive y Hy).
  destruct (Z.eq_dec (binade x) (binade y)) as [Heq|Hne].
  - rewrite Heq. pose proof (two_power_pos (52 - binade y)) as Hp.
    apply Qle_shift_div_l; [done|].
    unfold Qdiv. rewrite <- Qmult_assoc, (Qmult_comm (/ _)), Qmult_inv_r, Qmult_1_r by lra.
    rewrite <- Zle_Qle. apply round_half_even_mono.
    apply Qmult_le_compat_r; lra.
  - destruct (significand_range x Hx) as [_ Hsx].
    destruct (significand_range y Hy) as [Hsy _].
    assert (round_half_even (x * 2 ^ (52 - binade x)) <= 2 ^ 53)%Z as Hmx.
    { change (2 ^ 53)%Z with (round_half_even (inject_Z (2 ^ 53))).
      apply round_half_even_mono. change (inject_Z (2 ^ 53)) with (2 ^ 53). lra. }
    assert (2 ^ 52 <= round_half_even (y * 2 ^ (52 - binade y)))%Z as Hmy.
    { change (2 ^ 52)%Z with (round_half_even (inject_Z (2 ^ 52))).
      apply round_half_even_mono. change (inject_Z (2 ^ 52)) with (2 ^ 52). lra. }
    rewrite Zle_Qle in Hmx, Hmy.
    change (inject_Z (2 ^ 53)) with (2 ^ 53) in Hmx.
    change (inject_Z (2 ^ 52)) with (2 ^ 52) in Hmy.
    apply Qle_trans with (2 ^ (binade x + 1)).
    + pose proof (two_power_pos (52 - binade x)) as Hp.
      apply Qle_shift_div_r; [done|].
      rewrite <- Qpower_plus by done.
      by replace (binade x + 1 + (52 - binade x))%Z with 53%Z by lia.
    + apply Qle_trans with (2 ^ binade y).
      * apply Qpower_le_compat_l; [lia|done].
      * pose proof (two_power_pos (52 - binade y)) as Hp.
        apply Qle_shift_div_l; [done|].
        rewrite <- Qpower_plus by done.
        by replace (binade y + (52 - binade y))%Z with 52%Z by lia.
Qed.

Lemma binary64_mono (x y : Q) : x <= y → binary64 x <= binary64 y.
Proof.
  intros Hxy. destruct (Qlt_le_dec 0 x) as [Hx|Hx].
  - by apply binary64_mono_positive.
  - destruct (Qlt_le_dec y 0) as [Hy|Hy].
    + assert (binary64 (- y) <= binary64 (- x)) as Hopp
        by (apply binary64_mono_positive; lra).
      rewrite !binary64_opp in Hopp. lra.
    + destruct (Qeq_dec x 0) as [Hzero|Hnz].
      * rewrite (binary64_zero x Hzero). by apply binary64_nonneg.
      * assert (binary64 x < 0) by (apply binary64_neg; lra).
        pose proof (binary64_nonneg y Hy). lra.
Qed.

End JSFacts.

(** * Part VII: properties of the derived-metrics functions *)

Module ClientFacts.
Import JS Spec JSFacts Client Examples.
Local Open Scope Q_scope.

(** ** Shared facts *)

Lemma or_number_None (d : Q) : or_number None d = d.
Proof. reflexivity. Qed.

Lemma or_number_Some_zero (x d : Q) : x == 0 → or_number (Some x) d = d.
Proof.
  intros Hx. unfold or_number, truthy_number.
  by rewrite (Qeq_eq_bool _ _ Hx).
Qed.

Lemma or_number_Some_nonzero (x d : Q) : ¬ x == 0 → or_number (Some x) d = x.
Proof.
  intros Hx. unfold or_number, truthy_number.
  destruct (Qeq_bool x 0) eqn:E; [|done].
  by apply Qeq_bool_eq in E.
Qed.

(** [v?.value || 0] is the value when the field is there, and 0 when it
    is missing. *)
Lemma or_number_zero_default (v : option Q) :
  or_number v 0 == default 0 v.
Proof.
  destruct v as [x|]; [|done].
  destruct (Qeq_dec x 0) as [Hx|Hx].
  - rewrite or_number_Some_zero by done. simpl. by rewrite Hx.
  - by rewrite or_number_Some_nonzero.
Qed.

(** ** Growth colours *)

(** C9. [getGrowthColor] is total and piecewise constant with four
    values: the "strong" colour from 15 up, "good" on [5, 15), the
    "slow" colour on [-5, 5) and "decline" below -5; each of the four is
    taken, and no input gives a fifth colour (the orange [#F97316] of the
    fourth test is never returned). *)
Theorem getGrowthColor_four_bands :
  (∀ growth : Q,
     (15 <= growth → getGrowthColor growth = "#10B981") ∧
     (5 <= growth → growth < 15 → getGrowthColor growth = "#3B82F6") ∧
     (-5 <= growth → growth < 5 → getGrowthColor growth = "#F59E0B") ∧
     (growth < -5 → getGrowthColor growth = "#EF4444")) ∧
  (∀ colour : string,
     (∃ growth : Q, getGrowthColor growth = colour)
     ↔ colour ∈ ["#10B981"; "#3B82F6"; "#F59E0B"; "#EF4444"]).
Proof.
  assert (∀ growth : Q,
     (15 <= growth → getGrowthColor growth = "#10B981") ∧
     (5 <= growth → growth < 15 → getGrowthColor growth = "#3B82F6") ∧
     (-5 <= growth → growth < 5 → getGrowthColor growth = "#F59E0B") ∧
     (growth < -5 → getGrowthColor growth = "#EF4444")) as Hbands.
  { intros growth. unfold getGrowthColor. repeat split.
    - intros H15. by rewrite (proj2 (Qle_bool_iff _ _) H15).
    - intros H5 H15.
      by rewrite (proj2 (Qle_bool_false_iff _ _) H15), (proj2 (Qle_bool_iff _ _) H5).
    - intros Hm5 H5.
      assert (growth < 15) as H15 by lra.
      by rewrite (proj2 (Qle_bool_false_iff _ _) H15),
        (proj2 (Qle_bool_false_iff _ _) H5), (proj2 (Qle_bool_iff _ _) Hm5).
    - intros Hm5.
      assert (growth < 15) as H15 by lra. assert (growth < 5) as H5 by lra.
      by rewrite (proj2 (Qle_bool_false_iff _ _) H15),
        (proj2 (Qle_bool_false_iff _ _) H5), (proj2 (Qle_bool_false_iff _ _) Hm5). }
  split; [done|]. intros colour. split.
  - intros [growth <-]. destruct (Hbands growth) as (H1 & H2 & H3 & H4).
    rewrite !elem_of_cons.
    destruct (Qlt_le_dec growth 15) as [H15|H15]; [|rewrite H1 by done; auto].
    destruct (Qlt_le_dec growth 5) as [H5|H5]; [|rewrite H2 by done; auto].
    destruct (Qlt_le_dec growth (-5)) as [Hm5|Hm5]; [|rewrite H3 by done; auto].
    rewrite H4 by done. auto.
  - rewrite !elem_of_cons, elem_of_nil.
    intros [->|[->|[->|[->|[]]]]];
      [by exists 20|by exists 10|by exists 0|by exists (-10)].
Qed.

Lemma getGrowthColor_four_bands_witness :
  getGrowthColor 15 = "#10B981" ∧ getGrowthColor 14.99 = "#3B82F6" ∧
  getGrowthColor 5 = "#3B82F6" ∧ getGrowthColor (-5) = "#F59E0B" ∧
  getGrowthColor (-5.01) = "#EF4444".
Proof.
  destruct getGrowthColor_four_bands as [Hbands _].
  split_and!.
  - apply (Hbands 15). by vm_compute.
  - apply (Hbands 14.99); by vm_compute.
  - apply (Hbands 5); by vm_compute.
  - apply (Hbands (-5)); by vm_compute.
  - apply (Hbands (-5.01)). by vm_compute.
Defined.

(** ** Demo segments *)

(** C7. [generateDemoSegmentsData] returns the empty list for a zero
    revenue; for 10 it returns exactly three segments, Products, Services
    and Other, whose values are the 55%, 30% and 15% shares rounded to one
    decimal (5.5, 3 and 1.5, which add up to 10) and whose growth rates
    are 5.2, 8.5 and 3.1. *)
Theorem generateDemoSegmentsData_zero_and_ten :
  generateDemoSegmentsData 0 = [] ∧
  (∀ zero : Q, zero == 0 → generateDemoSegmentsData zero = []) ∧
  ∃ products services other : Segment.t,
    generateDemoSegmentsData 10 = [products; services; other] ∧
    (Segment.name products = "Products" ∧ Segment.name services = "Services"
     ∧ Segment.name other = "Other") ∧
    (Segment.value products = Math_round (10 * 0.55 * 10) / 10
     ∧ Segment.value services = Math_round (10 * 0.30 * 10) / 10
     ∧ Segment.value other = Math_round (10 * 0.15 * 10) / 10) ∧
    (Segment.value products == 5.5 ∧ Segment.value services == 3
     ∧ Segment.value other == 1.5) ∧
    (Segment.growth products == 5.2 ∧ Segment.growth services == 8.5
     ∧ Segment.growth other == 3.1) ∧
    Segment.value products + Segment.value services + Segment.value other == 10.
Proof.
  split; [done|]. split.
  - intros zero Hzero. unfold generateDemoSegmentsData.
    by rewrite (Qeq_eq_bool _ _ Hzero).
  - eexists _, _, _. split; [reflexivity|]. simpl.
    repeat split; vm_compute; reflexivity.
Qed.

Lemma generateDemoSegmentsData_zero_and_ten_witness :
  0 # 7 == 0 ∧ generateDemoSegmentsData (0 # 7) = [].
Proof.
  split; [done|].
  destruct generateDemoSegmentsData_zero_and_ten as (_ & Hzero & _).
  by apply Hzero.
Defined.

(** ** Chart series *)

Lemma revenue_or_0_spec (item : FinancialData) :
  revenue_or_0 item
  == default 0 (Client.value <$> revenues (income_statement (financials item))).
Proof. apply or_number_zero_default. Qed.

Lemma net_income_or_0_spec (item : FinancialData) :
  net_income_or_0 item
  == default 0 (Client.value <$> net_income_loss (income_statement (financials item))).
Proof. apply or_number_zero_default. Qed.



(** The earlier revision of the page charts the raw values: its rows are
    not divided by 1e9. *)
Remark legacy_revenueChartData_is_in_units :
  Legacy.revenue
  <$> default [] (Legacy.revenueChartData
                    (Some {| results := Some [period "2024" (Some 100e9) (Some 25e9)] |}))
  = [100e9].
Proof. reflexivity. Qed.

(** ** Price change *)

Lemma currentPrice_snapshot (previousDay : option PreviousDay.t) (bar : Bar) :
  snapshot previousDay = Some bar →
  currentPrice previousDay = or_number (c bar) 0.
Proof. intros Hbar. unfold currentPrice. by rewrite Hbar. Qed.

Lemma previousClose_snapshot (previousDay : option PreviousDay.t) (bar : Bar) :
  snapshot previousDay = Some bar →
  previousClose previousDay = or_number (o bar) (currentPrice previousDay).
Proof. intros Hbar. unfold previousClose. by rewrite Hbar. Qed.

Lemma previousClose_without_open (previousDay : option PreviousDay.t)
    (bar : Bar) :
  snapshot previousDay = Some bar →
  (o bar = None ∨ ∃ open : Q, o bar = Some open ∧ open == 0) →
  previousClose previousDay = currentPrice previousDay.
Proof.
  intros Hbar Hopen. rewrite (previousClose_snapshot _ _ Hbar).
  destruct Hopen as [->|(open & -> & Hzero)]; [done|].
  by rewrite or_number_Some_zero.
Qed.

(** C10. When the open of the previous session is missing or zero and
    its close is there, the previous close is the close itself, the
    price change is 0, and the percentage reads ["0.00"] whenever the
    close is positive.  The previous close (the divisor) is zero only
    when both the open and the close are missing or zero. *)
Theorem previousClose_falls_back_to_close
    (previousDay : option PreviousDay.t) (bar : Bar) :
  snapshot previousDay = Some bar →
  (∀ close : Q,
     c bar = Some close →
     (o bar = None ∨ ∃ open : Q, o bar = Some open ∧ open == 0) →
     previousClose previousDay == close ∧
     priceChange previousDay == 0 ∧
     (0 < close → priceChangePercent previousDay = "0.00")) ∧
  (previousClose previousDay == 0 →
     (c bar = None ∨ ∃ close : Q, c bar = Some close ∧ close == 0) ∧
     (o bar = None ∨ ∃ open : Q, o bar = Some open ∧ open == 0)).
Proof.
  intros Hbar. split.
  - intros close Hclose Hopen.
    pose proof (previousClose_without_open _ _ Hbar Hopen) as Hprev.
    assert (currentPrice previousDay == close) as Hcur.
    { rewrite (currentPrice_snapshot _ _ Hbar), Hclose.
      apply (or_number_zero_default (Some close)). }
    assert (priceChange previousDay == 0) as Hchange.
    { unfold priceChange, Number_subtract. rewrite Hprev.
      rewrite (binary64_zero (_ - _)); [done|ring]. }
    split; [by rewrite Hprev|]. split; [done|].
    intros Hpos. unfold priceChangePercent.
    rewrite Hprev, Hcur, (proj2 (Qlt_bool_iff 0 close) Hpos).
    apply toFixed_2_zero. unfold Number_multiply, Number_divide.
    rewrite (binary64_zero (priceChange previousDay / _))
      by (rewrite Hchange; unfold Qdiv; ring).
    by rewrite (binary64_zero (0 * 100)).
  - intros Hzero. rewrite (previousClose_snapshot _ _ Hbar) in Hzero.
    destruct (o bar) as [open|] eqn:Hopen.
    + destruct (Qeq_dec open 0) as [Hopen0|Hopen0].
      * rewrite or_number_Some_zero in Hzero by done.
        rewrite (currentPrice_snapshot _ _ Hbar) in Hzero. split; [|eauto].
        destruct (c bar) as [close|]; [|by left]. right. exists close.
        split; [done|]. by rewrite <- (or_number_zero_default (Some close)).
      * rewrite or_number_Some_nonzero in Hzero by done. done.
    + rewrite or_number_None, (currentPrice_snapshot _ _ Hbar) in Hzero.
      split; [|by left].
      destruct (c bar) as [close|]; [|by left]. right. exists close.
      split; [done|]. by rewrite <- (or_number_zero_default (Some close)).
Qed.

Lemma previousClose_falls_back_to_close_witness :
  snapshot closed_at_42_no_open = Some {| c := Some 42; o := None |} ∧
  previousClose closed_at_42_no_open == 42 ∧
  priceChange closed_at_42_no_open == 0 ∧
  priceChangePercent closed_at_42_no_open = "0.00".
Proof.
  split; [done|].
  destruct (previousClose_falls_back_to_close closed_at_42_no_open _ eq_refl)
    as [Hfallback _].
  destruct (Hfallback 42 eq_refl (or_introl eq_refl)) as (Hprev & Hchange & Hpercent).
  split; [done|]. split; [done|]. apply Hpercent. by vm_compute.
Defined.

(** C3, as stated, fails: for a session that closed at 10 and reports an
    open of 0 the derived previous close is 10, not the open. *)
Lemma previousClose_is_not_always_the_open :
  snapshot closed_at_10_open_0 = Some {| c := Some 10; o := Some 0 |} ∧
  previousClose closed_at_10_open_0 == 10 ∧
  ¬ previousClose closed_at_10_open_0 == 0.
Proof. split; [done|]. split; [done|]. by vm_compute. Qed.

(** C3, amended. For every previous-session snapshot: the current price
    is the close (0 when the close is missing); the previous close is the
    open when the open is present and not zero, and the current price
    otherwise.  As long as no result overflows to an infinity: the change
    is current minus previous as the machine computes it, that is
    rounded to the nearest binary64 number, within the fraction 2^-53 of
    the exact difference; when previous > 0 the percentage is
    [toFixed(2)] of (change / previous) * 100, the quotient and the
    product each rounded to binary64 (the two-decimal rendering of that
    number as long as its magnitude is below 1e21).  When previous is
    not positive the percentage is ["0.00"]. *)
Theorem price_change_of_snapshot
    (previousDay : option PreviousDay.t) (bar : Bar) :
  snapshot previousDay = Some bar →
  (∀ close : Q, c bar = Some close → currentPrice previousDay == close) ∧
  (c bar = None → currentPrice previousDay == 0) ∧
  (∀ open : Q, o bar = Some open → ¬ open == 0 →
     previousClose previousDay == open) ∧
  ((o bar = None ∨ ∃ open : Q, o bar = Some open ∧ open == 0) →
     previousClose previousDay == currentPrice previousDay) ∧
  (let difference := currentPrice previousDay - previousClose previousDay in
   isFinite (binary64 difference) = true →
   priceChange previousDay = binary64 difference ∧
   Qabs (priceChange previousDay - difference) <= Qabs difference * (1 # 2 ^ 53)) ∧
  (0 < previousClose previousDay →
     let quotient := binary64 (priceChange previousDay / previousClose previousDay) in
     let percent := binary64 (quotient * 100) in
     isFinite (priceChange previousDay) = true →
     isFinite quotient = true → isFinite percent = true →
     priceChangePercent previousDay = toFixed 2 percent ∧
     (Qabs percent < 1e21 → priceChangePercent previousDay = two_decimal_places percent)) ∧
  (¬ 0 < previousClose previousDay → priceChangePercent previousDay = "0.00").
Proof.
  intros Hbar. split_and!.
  - intros close Hclose. rewrite (currentPrice_snapshot _ _ Hbar), Hclose.
    apply (or_number_zero_default (Some close)).
  - intros Hclose. by rewrite (currentPrice_snapshot _ _ Hbar), Hclose.
  - intros open Hopen Hnz. rewrite (previousClose_snapshot _ _ Hbar), Hopen.
    by rewrite or_number_Some_nonzero.
  - intros Hopen. by rewrite (previousClose_without_open _ _ Hbar Hopen).
  - intros difference _. split; [done|]. apply binary64_error.
  - intros Hpos quotient percent _ _ _. unfold priceChangePercent.
    rewrite (proj2 (Qlt_bool_iff _ _) Hpos). split; [done|].
    intros Hsmall. by apply toFixed_2_spec.
  - intros Hnot. unfold priceChangePercent.
    destruct (Qlt_bool 0 (previousClose previousDay)) eqn:E; [|done].
    by apply Qlt_bool_iff in E.
Qed.

Lemma price_change_of_snapshot_witness :
  snapshot open_100_close_110 = Some {| c := Some 110; o := Some 100 |} ∧
  currentPrice open_100_close_110 == 110 ∧
  previousClose open_100_close_110 == 100 ∧
  priceChange open_100_close_110 == 10 ∧
  priceChangePercent open_100_close_110 = two_decimal_places 10 ∧
  priceChangePercent open_8_close_7_29 = "-8.88" ∧
  priceChangePercent open_8_close_8_67 = "8.38".
Proof.
  split; [done|].
  destruct (price_change_of_snapshot open_100_close_110 _ eq_refl)
    as (Hclose & _ & Hopen & _ & Hchange & Hpercent & _).
  split; [by apply Hclose|]. split; [apply Hopen; [done|by vm_compute]|].
  split.
  { destruct Hchange as [-> _]; by vm_compute. }
  split.
  { destruct Hpercent as [_ Hpercent]; [by vm_compute..|].
    rewrite Hpercent by (by vm_compute). by vm_compute. }
  destruct (price_change_of_snapshot open_8_close_7_29 _ eq_refl)
    as (_ & _ & _ & _ & _ & Hdown & _).
  destruct (price_change_of_snapshot open_8_close_8_67 _ eq_refl)
    as (_ & _ & _ & _ & _ & Hup & _).
  split.
  - destruct Hdown as [-> _]; by vm_compute.
  - destruct Hup as [-> _]; by vm_compute.
Defined.

(** ** Currency formatting *)

(** A quotient below 5e20, rounded to binary64, is printed by
    [toFixed(2)] with two decimals. *)
Lemma two_decimals_of_quotient (value unit : Q) :
  0 <= value → 0 < unit → value < unit * 5e20 →
  toFixed 2 (Number_divide value unit) = two_decimal_places (Number_divide value unit).
Proof.
  intros Hvalue Hunit Hbound. apply toFixed_2_spec. unfold Number_divide.
  assert (0 <= value / unit) as Hq.
  { apply Qle_shift_div_l; [done|]. by rewrite Qmult_0_l. }
  assert (value / unit < 5e20) as Hq'.
  { apply Qlt_shift_div_r; [done|]. by rewrite Qmult_comm. }
  pose proof (binary64_nonneg _ Hq) as Hrounded.
  pose proof (binary64_error (value / unit)) as Herror.
  rewrite (Qabs_pos (value / unit)) in Herror by done.
  apply Qabs_Qle_condition in Herror as [_ Herror].
  rewrite Qabs_pos by done.
  change (inject_Z (10 ^ 21)) with 1e21.
  change (1 # 2 ^ 53) with (1 # 9007199254740992) in Herror.
  set (q := value / unit) in *. set (r := binary64 q) in *. clearbody q r. qlra.
Qed.

Lemma toLocaleString_999 (loc : Locale) : toLocaleString loc 999 = "999".
Proof.
  unfold toLocaleString.
  change (round_scaled 3 (Qabs 999)) with 999000%Z.
  change (Z_digits (999000 / 1000)) with "999".
  unfold group_digits. destruct (minimum_grouping_digits loc); reflexivity.
Qed.

(** C4, as stated, fails in both listings.  In the one with the [T]
    band the number 1e33 (the binary64 number nearest to 10^33, which is
    below it) is divided to 1e21, where [toFixed] switches to exponent
    notation: the result has no two decimals.  In the earlier listing
    there is no [T] band: 2.3e12 is written in billions. *)
Lemma formatCurrency_1e33_has_no_decimals :
  0 <= binary64 1e33 ∧ binary64 1e33 < 1e33 ∧
  formatCurrency in_2026 (binary64 1e33) = "$1e+21T" ∧
  formatCurrency in_2026 (binary64 1e33)
  ≠ "$" +:+ two_decimal_places (Number_divide (binary64 1e33) 1e12) +:+ "T" ∧
  Legacy.formatCurrency in_2026 2300000000000 = "$2300.00B".
Proof. split_and!; by vm_compute. Qed.

(** C4, amended.  The value is divided as the machine divides, the
    quotient being rounded to the nearest binary64 number (within the
    fraction 2^-53 of the exact quotient), and [toFixed(2)] prints that
    number.  For every non-negative value, in the listing with the [T]
    band: from 1e12 the result is [$], [toFixed(2)] of the value in
    trillions and [T], with two decimals as long as the quotient is below
    1e21, which it is for every value up to 9.999999999999999e32; from
    1e9 it is the value in billions with two decimals and [B]; from 1e6
    the value in millions with two decimals and [M]; below 1e6 it is [$]
    and the locale-grouped number.  The earlier listing has no [T] band:
    from 1e9 the result is the value in billions and [B], below it agrees
    with the later listing.  In particular 1_500_000_000 gives
    ["$1.50B"], 2_300_000_000_000 gives ["$2.30T"] (["$2300.00B"] in the
    earlier listing), 999 gives ["$999"], 1_005_000 gives ["$1.00M"] and
    2_675_000_000_000 gives ["$2.67T"]. *)
Theorem formatCurrency_magnitudes (env : Env) :
  (∀ value : Q,
     0 <= value →
     (1e12 <= value →
        formatCurrency env value
        = "$" +:+ toFixed 2 (Number_divide value 1e12) +:+ "T" ∧
        (Number_divide value 1e12 < 1e21 →
           formatCurrency env value
           = "$" +:+ two_decimal_places (Number_divide value 1e12) +:+ "T") ∧
        (value <= 9.999999999999999e32 → Number_divide value 1e12 < 1e21)) ∧
     (1e9 <= value → value < 1e12 →
        formatCurrency env value
        = "$" +:+ two_decimal_places (Number_divide value 1e9) +:+ "B") ∧
     (1e6 <= value → value < 1e9 →
        formatCurrency env value
        = "$" +:+ two_decimal_places (Number_divide value 1e6) +:+ "M") ∧
     (value < 1e6 →
        formatCurrency env value = "$" +:+ toLocaleString (default_locale env) value) ∧
     (1e9 <= value →
        Legacy.formatCurrency env value
        = "$" +:+ toFixed 2 (Number_divide value 1e9) +:+ "B" ∧
        (Number_divide value 1e9 < 1e21 →
           Legacy.formatCurrency env value
           = "$" +:+ two_decimal_places (Number_divide value 1e9) +:+ "B")) ∧
     (value < 1e9 → Legacy.formatCurrency env value = formatCurrency env value) ∧
     (∀ unit : Q,
        0 < unit →
        Qabs (Number_divide value unit - value / unit)
        <= value / unit * (1 # 2 ^ 53))) ∧
  formatCurrency env 1500000000 = "$1.50B" ∧
  formatCurrency env 2300000000000 = "$2.30T" ∧
  formatCurrency env 999 = "$999" ∧
  formatCurrency env 1005000 = "$1.00M" ∧
  formatCurrency env 2675000000000 = "$2.67T" ∧
  Legacy.formatCurrency env 2300000000000 = "$2300.00B".
Proof.
  split; [|split_and!; try by vm_compute].
  - intros value Hvalue. unfold formatCurrency, Legacy.formatCurrency. split_and!.
    + intros H12. rewrite (proj2 (Qle_bool_iff _ _) H12). split_and!; [done|..].
      * intros Hsmall. rewrite toFixed_2_spec; [done|].
        rewrite Qabs_pos; [done|]. apply binary64_nonneg.
        apply Qle_shift_div_l; [done|]. by rewrite Qmult_0_l.
      * intros Hbound. unfold Number_divide.
        apply Qle_lt_trans with (binary64 999999999999999900000); [|by vm_compute].
        apply binary64_mono. apply Qle_shift_div_r; [done|]. qlra.
    + intros H9 H12.
      rewrite (proj2 (Qle_bool_false_iff _ _) H12), (proj2 (Qle_bool_iff _ _) H9).
      rewrite two_decimals_of_quotient; [done..|]. qlra.
    + intros H6 H9. assert (value < 1e12) as H12 by qlra.
      rewrite (proj2 (Qle_bool_false_iff _ _) H12),
        (proj2 (Qle_bool_false_iff _ _) H9), (proj2 (Qle_bool_iff _ _) H6).
      rewrite two_decimals_of_quotient; [done..|]. qlra.
    + intros H6. assert (value < 1e12) as H12 by qlra.
      assert (value < 1e9) as H9 by qlra.
      by rewrite (proj2 (Qle_bool_false_iff _ _) H12),
        (proj2 (Qle_bool_false_iff _ _) H9), (proj2 (Qle_bool_false_iff _ _) H6).
    + intros H9. rewrite (proj2 (Qle_bool_iff _ _) H9). split; [done|].
      intros Hsmall. rewrite toFixed_2_spec; [done|].
      rewrite Qabs_pos; [done|]. apply binary64_nonneg.
      apply Qle_shift_div_l; [done|]. by rewrite Qmult_0_l.
    + intros H9. assert (value < 1e12) as H12 by qlra.
      by rewrite (proj2 (Qle_bool_false_iff 1e12 _) H12),
        (proj2 (Qle_bool_false_iff 1e9 _) H9).
    + intros unit Hunit.
      assert (0 <= value / unit) as Hq.
      { apply Qle_shift_div_l; [done|]. by rewrite Qmult_0_l. }
      pose proof (binary64_error (value / unit)) as Herror.
      by rewrite (Qabs_pos (value / unit)) in Herror.
  - unfold formatCurrency.
    change (Qle_bool 1e12 999) with false. change (Qle_bool 1e9 999) with false.
    change (Qle_bool 1e6 999) with false. cbv iota.
    by rewrite toLocaleString_999.
Qed.

Lemma formatCurrency_magnitudes_witness :
  formatCurrency in_2026 5e12 = "$" +:+ two_decimal_places 5 +:+ "T" ∧
  formatCurrency in_2026 2500000 = "$" +:+ two_decimal_places 2.5 +:+ "M" ∧
  formatCurrency in_2026 1234.5 = "$" +:+ toLocaleString en_US 1234.5 ∧
  Legacy.formatCurrency in_2026 5e12 = "$" +:+ two_decimal_places 5000 +:+ "B".
Proof.
  destruct (formatCurrency_magnitudes in_2026) as [Hbands _].
  split_and!.
  - destruct (Hbands 5e12) as (HT & _); [by vm_compute|].
    destruct HT as (_ & -> & _); by vm_compute.
  - destruct (Hbands 2500000) as (_ & _ & HM & _); [by vm_compute|].
    rewrite HM by (by vm_compute). by vm_compute.
  - destruct (Hbands 1234.5) as (_ & _ & _ & Hsmall & _); [by vm_compute|].
    apply Hsmall. by vm_compute.
  - destruct (Hbands 5e12) as (_ & _ & _ & _ & HB & _); [by vm_compute|].
    destruct HB as [_ ->]; by vm_compute.
Defined.

(** The earlier revision of the page has no trillion band. *)
Remark legacy_formatCurrency_has_no_T (env : Env) :
  Legacy.formatCurrency env 2300000000000 = "$2300.00B".
Proof. by vm_compute. Qed.

(** ** DCF projection *)

Lemma or_string_nonempty (s d : string) : s ≠ "" → or_string (Some s) d = s.
Proof. by destruct s. Qed.

Lemma Number_toString_nonempty (y : Z) :
  (Z.abs y < 10 ^ 21)%Z → Number_toString y ≠ "".
Proof.
  intros Hy. unfold Number_toString. rewrite (proj2 (Z.ltb_lt _ _) Hy).
  destruct (y <? 0)%Z; [done|]. rewrite string_app_nil. unfold Z_digits.
  by destruct (N_digits_head (Z.to_N (Z.abs y))) as (a & rest & -> & _).
Qed.

(** What [generateDCFData] computes once the year of the latest period
    is known. *)
Lemma generateDCFData_cons (env : Env) (latest : FinancialData)
    (older : list FinancialData) :
  generateDCFData env (latest :: older)
  = (λ i : nat,
       {| DCFPoint.year :=
            year_label (parseInt (or_string (Some (fiscal_year latest))
                                            (Number_toString (getFullYear env)))) i;
          DCFPoint.fcf :=
            Math_round (revenue_or_0 latest / 1e9 * Math_pow 1.05 (i + 1) * 0.15);
          DCFPoint.dcf :=
            Math_round (revenue_or_0 latest / 1e9 * Math_pow 1.05 (i + 1) * 0.15
                        * Math_pow 0.97 (i + 1)) |})
    <$> seq 0 5.
Proof. reflexivity. Qed.




(** ** What the functions depend on *)

#[global] Instance formatCurrency_comp (env : Env) :
  Proper (Qeq ==> eq) (formatCurrency env).
Proof.
  intros v1 v2 Hv. unfold formatCurrency.
  assert (Qle_bool 1e12 v1 = Qle_bool 1e12 v2) as -> by (by rewrite Hv).
  assert (Qle_bool 1e9 v1 = Qle_bool 1e9 v2) as -> by (by rewrite Hv).
  assert (Qle_bool 1e6 v1 = Qle_bool 1e6 v2) as -> by (by rewrite Hv).
  assert (∀ unit : Q, Number_divide v1 unit = Number_divide v2 unit) as Hquotient.
  { intros unit. unfold Number_divide. apply binary64_comp. by rewrite Hv. }
  rewrite !Hquotient.
  by rewrite (toLocaleString_comp _ v1 v2 Hv).
Qed.

#[global] Instance getGrowthColor_comp : Proper (Qeq ==> eq) getGrowthColor.
Proof.
  intros g1 g2 Hg. unfold getGrowthColor.
  assert (Qle_bool 15 g1 = Qle_bool 15 g2) as -> by (by rewrite Hg).
  assert (Qle_bool 5 g1 = Qle_bool 5 g2) as -> by (by rewrite Hg).
  by assert (Qle_bool (-5) g1 = Qle_bool (-5) g2) as -> by (by rewrite Hg).
Qed.

(** C8, as stated, fails: on a period without a fiscal year
    [generateDCFData] reads the clock, and below one million
    [formatCurrency] reads the default locale. *)
Lemma derived_metrics_read_the_environment :
  generateDCFData in_2025 [period_without_year]
  ≠ generateDCFData in_2026 [period_without_year] ∧
  DCFPoint.year <$> generateDCFData in_2025 [period_without_year]
  = ["2026"; "2027"; "2028"; "2029"; "2030"] ∧
  DCFPoint.year <$> generateDCFData in_2026 [period_without_year]
  = ["2027"; "2028"; "2029"; "2030"; "2031"] ∧
  formatCurrency in_2026 1234.5 = "$1,234.5" ∧
  formatCurrency in_2026_de 1234.5 = "$1.234,5".
Proof. split; [by vm_compute|]. by vm_compute. Qed.

(** C8, amended. The derived-metrics functions keep no state: each is a
    function of its argument and of at most one value of the runtime.
    The series builders, [generateDemoSegmentsData] and [getGrowthColor]
    take nothing but their argument, and equal numbers in it give equal
    numbers in the result.  [formatCurrency] gives the same
    text for equal numbers, whatever the clock, provided the default
    locale is the same, and from one million up whatever the locale.
    [generateDCFData] gives the same projection whatever the locale,
    provided the calendar year is the same, and whatever the year when
    the list is empty or its first period has a non-empty
    [fiscal_year]. *)
Theorem derived_metrics_are_functions_of_input_and_runtime :
  (∀ (env1 env2 : Env) (v1 v2 : Q),
     v1 == v2 → default_locale env1 = default_locale env2 →
     formatCurrency env1 v1 = formatCurrency env2 v2) ∧
  (∀ (env1 env2 : Env) (v1 v2 : Q),
     v1 == v2 → 1e6 <= v1 →
     formatCurrency env1 v1 = formatCurrency env2 v2) ∧
  (∀ (env1 env2 : Env) (financials : list FinancialData),
     getFullYear env1 = getFullYear env2 →
     generateDCFData env1 financials = generateDCFData env2 financials) ∧
  (∀ (env1 env2 : Env) (financials : list FinancialData),
     (∀ latest : FinancialData, financials !! 0%nat = Some latest →
        fiscal_year latest ≠ "") →
     generateDCFData env1 financials = generateDCFData env2 financials) ∧
  (∀ periods1 periods2 : list FinancialData,
     Forall2 (λ p1 p2 : FinancialData,
                fiscal_year p1 = fiscal_year p2 ∧
                revenue_or_0 p1 == revenue_or_0 p2 ∧
                net_income_or_0 p1 == net_income_or_0 p2)
             periods1 periods2 →
     Forall2 (λ r1 r2 : RevenuePoint.t,
                RevenuePoint.year r1 = RevenuePoint.year r2 ∧
                RevenuePoint.revenue r1 == RevenuePoint.revenue r2)
             (default [] (revenueChartData (Some {| results := Some periods1 |})))
             (default [] (revenueChartData (Some {| results := Some periods2 |}))) ∧
     Forall2 (λ r1 r2 : ProfitPoint.t,
                ProfitPoint.year r1 = ProfitPoint.year r2 ∧
                ProfitPoint.netIncome r1 == ProfitPoint.netIncome r2)
             (default [] (profitChartData (Some {| results := Some periods1 |})))
             (default [] (profitChartData (Some {| results := Some periods2 |})))) ∧
  (∀ g1 g2 : Q, g1 == g2 → getGrowthColor g1 = getGrowthColor g2) ∧
  (∀ r1 r2 : Q,
     r1 == r2 →
     Forall2 (λ s1 s2 : Segment.t,
                Segment.name s1 = Segment.name s2 ∧
                Segment.value s1 == Segment.value s2 ∧
                Segment.growth s1 == Segment.growth s2 ∧
                Segment.color s1 = Segment.color s2)
             (generateDemoSegmentsData r1) (generateDemoSegmentsData r2)).
Proof.
  split_and!.
  - intros env1 env2 v1 v2 Hv Hlocale. rewrite Hv.
    unfold formatCurrency. by rewrite Hlocale.
  - intros env1 env2 v1 v2 Hv H6. rewrite <- Hv.
    unfold formatCurrency.
    destruct (Qle_bool 1e12 v1); [done|]. destruct (Qle_bool 1e9 v1); [done|].
    by rewrite (proj2 (Qle_bool_iff _ _) H6).
  - intros env1 env2 financials Hyear.
    destruct financials as [|latest older]; [done|].
    by rewrite !generateDCFData_cons, Hyear.
  - intros env1 env2 financials Hnonempty.
    destruct financials as [|latest older]; [done|].
    rewrite !generateDCFData_cons.
    by rewrite !or_string_nonempty by (by apply Hnonempty).
  - intros periods1 periods2 Hperiods. split.
    + apply Forall2_reverse, Forall2_fmap.
      eapply Forall2_impl; [exact Hperiods|].
      intros p1 p2 (Hyear & Hrevenue & _). simpl. by rewrite Hrevenue.
    + apply Forall2_reverse, Forall2_fmap.
      eapply Forall2_impl; [exact Hperiods|].
      intros p1 p2 (Hyear & _ & Hnet). simpl. by rewrite Hnet.
  - by intros g1 g2 ->.
  - intros r1 r2 Hr. unfold generateDemoSegmentsData. rewrite Hr.
    destruct (Qeq_bool r2 0); [constructor|].
    repeat constructor; simpl; by rewrite ?Hr.
Qed.

Lemma derived_metrics_are_functions_of_input_and_runtime_witness :
  formatCurrency in_2025 (3 # 2) = formatCurrency in_2026 1.5 ∧
  formatCurrency in_2026 1500000000 = formatCurrency in_2026_de (3000000000 # 2) ∧
  generateDCFData in_2025 [period_2024] = generateDCFData in_2026_de [period_2024].
Proof.
  destruct derived_metrics_are_functions_of_input_and_runtime
    as (Hlocale & Hlarge & _ & Hyear & _).
  split_and!.
  - by apply Hlocale.
  - apply Hlarge; by vm_compute.
  - apply Hyear. by intros latest [= <-].
Defined.

End ClientFacts.

(** * Part VIII: properties of the data proxy *)

Module ServerFacts.
Import JS Spec JSFacts Server Examples.

(** ** The code shared by all handlers *)

(** First listing: [fetch], the [ok] test and the relay, inside
    [try]/[catch]. *)
Lemma relay_key_in_query (call : FetchCall) (up : Upstream) (log : list FetchCall) :
  try_catch
    (response ← fetch call;
     if negb (ok response) then throw ("Polygon API error: " +:+ statusText response)
     else data ← await (json response); send_json data)
    (λ message, send_error 500 message) up log
  = (Fulfilled (reply KeyInQuery (up log call)), (log ++ [call])%list).
Proof.
  unfold try_catch, mbind, Eff_bind, fetch, reply.
  destruct (up log call) as [response|message]; [|done].
  destruct (ok response); simpl; [|done].
  unfold await. by destruct (json response).
Qed.

(** Second listing: the same through [polygonFetch], which reads the
    body of a response that is not [ok] before it throws. *)
Lemma relay_key_in_headers (key path : string) (up : Upstream)
    (log : list FetchCall) :
  let call := {| url := POLYGON_BASE_URL +:+ path; headers := V2.authHeaders key |} in
  try_catch
    (response ← V2.polygonFetch key path;
     if negb (ok response) then throw ("Polygon API error: " +:+ statusText response)
     else data ← await (json response); send_json data)
    (λ message, send_error 500 message) up log
  = (Fulfilled (reply KeyInHeaders (up log call)), (log ++ [call])%list).
Proof.
  intros call.
  unfold try_catch, V2.polygonFetch, mbind, Eff_bind, fetch, reply. fold call.
  destruct (up log call) as [response|message]; [|done].
  destruct (ok response) eqn:Hok; simpl.
  - unfold mret, Eff_ret. rewrite Hok. simpl.
    unfold await. by destruct (json response).
  - unfold await. by destruct (text response).
Qed.

(** A request that passes the parameter check leads to exactly one
    upstream call, fixed by the request, and is answered from the
    outcome of that call. *)
Lemma handler_accepted (l : Listing) (key : string) (route : Route) (req : Request) :
  accepted route req = true →
  ∃ call : FetchCall, ∀ (up : Upstream) (log : list FetchCall),
    handler l key route req up log
    = (Fulfilled (reply l (up log call)), (log ++ [call])%list).
Proof.
  intros Hacc. destruct l, route; simpl in Hacc |- *;
    try apply andb_true_iff in Hacc as [Hfrom Hto];
    eexists; intros up log.
  - unfold V1.search. rewrite Hacc. apply relay_key_in_query.
  - apply relay_key_in_query.
  - apply relay_key_in_query.
  - unfold V1.aggregates. rewrite Hfrom, Hto. apply relay_key_in_query.
  - apply relay_key_in_query.
  - unfold V2.search. rewrite Hacc. apply relay_key_in_headers.
  - apply relay_key_in_headers.
  - apply relay_key_in_headers.
  - unfold V2.aggregates. rewrite Hfrom, Hto. apply relay_key_in_headers.
  - apply relay_key_in_headers.
Qed.

(** A request that fails the parameter check is answered with 400 and
    leaves the log of upstream calls as it was. *)
Lemma handler_refused (l : Listing) (key : string) (route : Route) (req : Request)
    (up : Upstream) (log : list FetchCall) :
  accepted route req = false →
  ∃ message : string,
    handler l key route req up log = (Fulfilled (error_response 400 message), log).
Proof.
  intros Hacc. destruct l, route; simpl in Hacc; try done.
  - eexists. simpl. unfold V1.search. by rewrite Hacc.
  - eexists. simpl. unfold V1.aggregates.
    apply andb_false_iff in Hacc as [->| ->]; [done|].
    by rewrite orb_true_r.
  - eexists. simpl. unfold V2.search. by rewrite Hacc.
  - eexists. simpl. unfold V2.aggregates.
    apply andb_false_iff in Hacc as [->| ->]; [done|].
    by rewrite orb_true_r.
Qed.

Lemma embeds_suffix (prefix s : string) : embeds (prefix +:+ s) s = true.
Proof.
  unfold embeds. apply bool_decide_eq_true.
  destruct (index 0 s (prefix +:+ s)) as [i|] eqn:Hindex; [by eexists|].
  destruct s as [|a s].
  - apply index_correct4 in Hindex. lia.
  - exfalso.
    apply (index_correct3 0 (String.length prefix) _ _ Hindex); [done|lia|].
    apply substring_app_r.
Qed.

(** ** Other parameter checks and the start-up check *)

(** X2. An aggregates request without [from] or without [to] is answered
    400 and reaches no provider. *)
Lemma aggregates_require_from_and_to (l : Listing) (key : string) (req : Request)
    (up : Upstream) (log : list FetchCall) :
  truthy (query req !! "from") = false ∨ truthy (query req !! "to") = false →
  handler l key Aggregates req up log
  = (Fulfilled (error_response 400
                  "from and to date parameters are required (YYYY-MM-DD)"), log).
Proof.
  intros Hmissing. destruct l; simpl.
  - unfold V1.aggregates. destruct Hmissing as [-> | ->]; [done|].
    by rewrite orb_true_r.
  - unfold V2.aggregates. destruct Hmissing as [-> | ->]; [done|].
    by rewrite orb_true_r.
Qed.

(** [registerRoutes] throws without a key and registers the handlers
    with one. *)
Lemma registerRoutes_requires_the_key :
  V1.registerRoutes None = Rejected missing_key_message ∧
  V1.registerRoutes (Some "") = Rejected missing_key_message ∧
  V2.registerRoutes None = Rejected missing_key_message ∧
  V2.registerRoutes (Some "") = Rejected missing_key_message ∧
  ∀ key : string,
    key ≠ "" →
    V1.registerRoutes (Some key) = Fulfilled (handler KeyInQuery key) ∧
    V2.registerRoutes (Some key) = Fulfilled (handler KeyInHeaders key).
Proof. split_and!; try done. by intros [|a key]. Qed.

(** ** Search without a query *)

(** C1, as stated, fails for a query of blanks: [?q=%20] is forwarded
    to the provider (in both listings) and its answer is relayed. *)
Lemma search_for_a_blank_reaches_the_provider :
  whitespace_only " " = true ∧
  run (handler KeyInQuery "KEY" Search search_for_a_blank) always_ok
  = (Fulfilled {| status := 200; body := DataBody "{}" |},
     [ {| url := "https://api.polygon.io/v3/reference/tickers?search=%20&active=true&limit=10&apiKey=KEY";
          headers := [] |} ]) ∧
  run (handler KeyInHeaders "KEY" Search search_for_a_blank) always_ok
  = (Fulfilled {| status := 200; body := DataBody "{}" |},
     [ {| url := "https://api.polygon.io/v3/reference/tickers?search=%20&active=true&limit=10";
          headers := [ ("Authorization", "Bearer KEY"); ("X-Polygon-API-Key", "KEY") ] |} ]).
Proof. split; [done|]. split; by vm_compute. Qed.

(** C1, amended. When the query parameter [q] is absent or empty, the
    search endpoint answers 400 with a message that names the parameter
    and makes no upstream call; for every other [q], blanks included, it
    makes exactly one upstream call. *)
Theorem search_requires_a_non_empty_q (l : Listing) (key : string) (req : Request) :
  (query req !! "q" = None ∨ query req !! "q" = Some (QString "") →
   ∀ (up : Upstream) (log : list FetchCall),
     handler l key Search req up log
     = (Fulfilled (error_response 400 "Query parameter 'q' is required"), log)) ∧
  embeds "Query parameter 'q' is required" "'q'" = true ∧
  (∀ v : QueryValue,
     query req !! "q" = Some v → v ≠ QString "" →
     ∃ call : FetchCall, ∀ (up : Upstream) (log : list FetchCall),
       snd (handler l key Search req up log) = (log ++ [call])%list).
Proof.
  split_and!.
  - intros Hq up log. destruct l; simpl.
    + unfold V1.search. by destruct Hq as [-> | ->].
    + unfold V2.search. by destruct Hq as [-> | ->].
  - done.
  - intros v Hq Hv.
    destruct (handler_accepted l key Search req) as [call Hcall].
    { simpl. rewrite Hq. by destruct v as [[|]| |]. }
    exists call. intros up log. by rewrite Hcall.
Qed.

Lemma search_requires_a_non_empty_q_witness :
  query search_without_q !! "q" = None ∧
  query search_for_nothing !! "q" = Some (QString "") ∧
  run (handler KeyInQuery "KEY" Search search_without_q) always_ok
  = (Fulfilled (error_response 400 "Query parameter 'q' is required"), []) ∧
  run (handler KeyInHeaders "KEY" Search search_for_nothing) always_ok
  = (Fulfilled (error_response 400 "Query parameter 'q' is required"), []).
Proof.
  split; [done|]. split; [done|]. split.
  - by apply (search_requires_a_non_empty_q KeyInQuery "KEY" search_without_q); left.
  - by apply (search_requires_a_non_empty_q KeyInHeaders "KEY" search_for_nothing); right.
Defined.

(** ** Upstream failures *)

(** C6, as stated, fails.  When the transport fails there is no upstream
    response, hence no status text: the message of the 500 is that of the
    rejected [fetch].  And in the second listing, when the provider
    answers 503 and the connection breaks while [polygonFetch] reads the
    body, the message of the 500 is that of the broken read, and the
    status text is not in it. *)
Lemma upstream_failure_without_the_status_text :
  run (handler KeyInQuery "KEY" Previous previous_of_AAPL) unreachable
  = (Fulfilled (error_response 500 "fetch failed"),
     [ {| url := "https://api.polygon.io/v2/aggs/ticker/AAPL/prev?adjusted=true&apiKey=KEY";
          headers := [] |} ]) ∧
  (∀ (log : list FetchCall) (call : FetchCall) (response : Response),
     unreachable log call ≠ Fulfilled response) ∧
  run (handler KeyInHeaders "KEY" Previous previous_of_AAPL) unavailable_then_broken
  = (Fulfilled (error_response 500 "terminated"),
     [ {| url := "https://api.polygon.io/v2/aggs/ticker/AAPL/prev?adjusted=true";
          headers := [ ("Authorization", "Bearer KEY"); ("X-Polygon-API-Key", "KEY") ] |} ]) ∧
  embeds "terminated" "Service Unavailable" = false.
Proof. split; [by vm_compute|]. split; [done|]. split; by vm_compute. Qed.

(** C6, amended. For every proxy operation whose request passes the
    parameter check there is one upstream call, made exactly once (no
    retry).  When that call is rejected (transport failure), the proxy
    answers 500 with the message of the rejection.  When it returns a
    response that is not [ok] (whose body, in the second listing, can be
    read), the proxy answers 500 with ["Polygon API error: "] followed by
    the status text, and the answer depends on nothing else of the
    response: no detail of the body leaks.  Nothing is cached: the same
    request served twice makes the call twice and each time is answered
    from the outcome of its own call. *)
Theorem upstream_failure_is_answered_with_500 (l : Listing) (key : string)
    (route : Route) (req : Request) :
  accepted route req = true →
  ∃ call : FetchCall,
    (∀ (up : Upstream) (log : list FetchCall),
       snd (handler l key route req up log) = (log ++ [call])%list) ∧
    (∀ (up : Upstream) (log : list FetchCall) (message : string),
       up log call = Rejected message →
       fst (handler l key route req up log)
       = Fulfilled (error_response 500 message)) ∧
    (∀ (up : Upstream) (log : list FetchCall) (response : Response),
       up log call = Fulfilled response → ok response = false →
       (l = KeyInQuery ∨ ∃ body : string, text response = Fulfilled body) →
       fst (handler l key route req up log)
       = Fulfilled (error_response 500 ("Polygon API error: " +:+ statusText response))
       ∧ embeds ("Polygon API error: " +:+ statusText response) (statusText response)
         = true) ∧
    (∀ (up up' : Upstream) (log log' : list FetchCall) (r r' : Response),
       up log call = Fulfilled r → up' log' call = Fulfilled r' →
       ok r = false → ok r' = false → statusText r = statusText r' →
       (l = KeyInQuery ∨ ∃ body body' : string,
            text r = Fulfilled body ∧ text r' = Fulfilled body') →
       fst (handler l key route req up log)
       = fst (handler l key route req up' log')) ∧
    (∀ up : Upstream,
       run (serve (handler l key) [(route, req); (route, req)]) up
       = (Fulfilled [reply l (up [] call); reply l (up [call] call)], [call; call])).
Proof.
  intros Hacc. destruct (handler_accepted l key route req Hacc) as [call Hcall].
  exists call. split_and!.
  - intros up log. by rewrite Hcall.
  - intros up log message Hup. by rewrite Hcall, Hup.
  - intros up log response Hup Hok Hbody. split; [|apply embeds_suffix].
    rewrite Hcall, Hup. simpl. rewrite Hok.
    by destruct Hbody as [-> | [body ->]]; [|destruct l].
  - intros up up' log log' r r' Hup Hup' Hok Hok' Hstatus Hbody.
    rewrite !Hcall, Hup, Hup'. simpl. rewrite Hok, Hok', Hstatus.
    by destruct Hbody as [-> | (body & body' & -> & ->)]; [|destruct l].
  - intros up. unfold run. simpl. unfold mbind, Eff_bind.
    rewrite Hcall. simpl. by rewrite Hcall.
Qed.

Lemma upstream_failure_is_answered_with_500_witness :
  accepted Previous previous_of_AAPL = true ∧
  fst (run (handler KeyInQuery "KEY" Previous previous_of_AAPL) unreachable)
  = Fulfilled (error_response 500 "fetch failed") ∧
  fst (run (handler KeyInHeaders "KEY" Previous previous_of_AAPL) too_many_requests)
  = Fulfilled (error_response 500 "Polygon API error: Too Many Requests").
Proof.
  split; [done|]. split.
  - destruct (upstream_failure_is_answered_with_500 KeyInQuery "KEY" Previous
                previous_of_AAPL eq_refl) as (call & _ & Hrejected & _).
    by apply Hrejected.
  - destruct (upstream_failure_is_answered_with_500 KeyInHeaders "KEY" Previous
                previous_of_AAPL eq_refl) as (call & _ & _ & Hstatus & _).
    unfold run.
    by destruct (Hstatus too_many_requests [] _ eq_refl eq_refl
                   (or_intror (ex_intro _ _ eq_refl))) as [-> _].
Defined.

End ServerFacts.

(** * Part IX: further facts about the built-ins *)

Module NumberFacts.
Import JS Spec JSFacts.
Local Open Scope Q_scope.

(** ** Rounding *)

Lemma Qfloor_unique (z : Z) (q : Q) :
  inject_Z z <= q → q < inject_Z (z + 1) → Qfloor q = z.
Proof.
  intros Hle Hlt.
  pose proof (Qfloor_le q) as Hfloor. pose proof (Qlt_floor q) as Hceil.
  assert (inject_Z (Qfloor q) < inject_Z (z + 1)) as H1
    by (eapply Qle_lt_trans; eauto).
  assert (inject_Z z < inject_Z (Qfloor q + 1)) as H2
    by (eapply Qle_lt_trans; eauto).
  rewrite <- Zlt_Qlt in H1, H2. lia.
Qed.

(** [Math.round] moves a number by at most one half. *)
Lemma Math_round_close (x : Q) : x - 0.5 < Math_round x ∧ Math_round x <= x + 0.5.
Proof.
  unfold Math_round.
  pose proof (Qfloor_le (x + 0.5)) as Hfloor.
  pose proof (Qlt_floor (x + 0.5)) as Hceil.
  rewrite inject_Z_plus in Hceil. change (inject_Z 1) with 1 in Hceil.
  set (r := inject_Z _) in *. clearbody r. split; qlra.
Qed.

Lemma Math_round_mono (x y : Q) : x <= y → Math_round x <= Math_round y.
Proof.
  intros Hxy. unfold Math_round. rewrite <- Zle_Qle.
  apply Qfloor_resp_le. lra.
Qed.

Lemma Math_round_nonneg (x : Q) : 0 <= x → 0 <= Math_round x.
Proof.
  intros Hx. change 0 with (Math_round 0) at 1. by apply Math_round_mono.
Qed.

(** ** The sign and the first character of [toFixed] *)

Lemma Qabs_Qabs (x : Q) : Qabs (Qabs x) = Qabs x.
Proof. destruct x as [n d]. simpl. by rewrite Z.abs_idemp. Qed.

Lemma toFixed_sign (f : nat) (x : Q) :
  toFixed f x = (if Qlt_bool x 0 then "-" else "") +:+ toFixed f (Qabs x).
Proof.
  unfold toFixed. rewrite Qabs_Qabs.
  rewrite (proj2 (Qlt_bool_false_iff (Qabs x) 0) (Qabs_nonneg x)).
  by destruct (Qlt_bool x 0), (Qle_bool _ _), f.
Qed.

Lemma toFixed_negative (f : nat) (x : Q) :
  x < 0 → toFixed f x = "-" +:+ toFixed f (- x).
Proof.
  intros Hx. rewrite toFixed_sign, (proj2 (Qlt_bool_iff x 0) Hx).
  f_equal. apply toFixed_comp. apply Qabs_neg. lra.
Qed.

Lemma all_digits_Forall (s : string) :
  all_digits s = true ↔ Forall (λ a, is_digit a = true) (list_ascii_of_string s).
Proof.
  induction s as [|a s IH]; simpl.
  - split; [constructor|done].
  - rewrite andb_true_iff, Forall_cons. by rewrite IH.
Qed.

Lemma drop_leading_zeros_Forall (P : ascii → Prop) (l : list ascii) :
  Forall P l → Forall P (drop_leading_zeros l).
Proof.
  induction 1 as [|a l Ha Hl IH]; simpl; [constructor|].
  destruct (Ascii.eqb a "0"); [done|by constructor].
Qed.

Lemma all_digits_strip_trailing_zeros (s : string) :
  all_digits s = true → all_digits (strip_trailing_zeros s) = true.
Proof.
  rewrite !all_digits_Forall. intros Hs. unfold strip_trailing_zeros.
  rewrite list_ascii_of_string_of_list_ascii.
  apply List.Forall_rev, drop_leading_zeros_Forall, List.Forall_rev, Hs.
Qed.

(** The text of a number that is not negative starts with a digit. *)
Lemma exp_notation_head (x : Q) :
  ∃ (d : ascii) (rest : string), exp_notation x = String d rest ∧ is_digit d = true.
Proof.
  unfold exp_notation.
  set (n := Z.of_nat _). set (s := Qfloor _).
  destruct (10 ^ 17 <=? s)%Z.
  - pose proof (all_digits_strip_trailing_zeros _ (all_digits_N_digits (Z.to_N (s / 10))))
      as Hdigits.
    unfold Z_digits at 1.
    destruct (strip_trailing_zeros _) as [|d [|e rest]]; [by eexists _, _|..];
      simpl in Hdigits; apply andb_true_iff in Hdigits as [Hd _];
      rewrite string_app_cons; by eexists _, _.
  - pose proof (all_digits_strip_trailing_zeros _ (all_digits_N_digits (Z.to_N s)))
      as Hdigits.
    unfold Z_digits at 1.
    destruct (strip_trailing_zeros _) as [|d [|e rest]]; [by eexists _, _|..];
      simpl in Hdigits; apply andb_true_iff in Hdigits as [Hd _];
      rewrite string_app_cons; by eexists _, _.
Qed.

Lemma N_digits_head_digit (n : N) :
  ∃ (d : ascii) (rest : string), N_digits n = String d rest ∧ is_digit d = true.
Proof.
  pose proof (all_digits_N_digits n) as Hdigits.
  pose proof (N_digits_length_pos n) as Hpos.
  destruct (N_digits n) as [|d rest]; [simpl in Hpos; lia|].
  simpl in Hdigits. apply andb_true_iff in Hdigits as [Hd _]. by eexists _, _.
Qed.

Lemma toFixed_head (f : nat) (x : Q) :
  0 <= x →
  ∃ (d : ascii) (rest : string), toFixed f x = String d rest ∧ is_digit d = true.
Proof.
  intros Hx. unfold toFixed.
  rewrite (proj2 (Qlt_bool_false_iff x 0) Hx), !string_app_nil.
  destruct (Qle_bool _ _); [apply exp_notation_head|].
  unfold Z_digits. set (n := Z.to_N _).
  destruct (N_digits_head_digit n) as (d & rest & Hn & Hd).
  destruct f as [|f]; [by eexists _, _|].
  destruct (String.length (N_digits n) <=? S f)%nat eqn:Hk.
  - apply Nat.leb_le in Hk.
    replace (S f + 1 - String.length (N_digits n))%nat
      with (S (S f - String.length (N_digits n))) by lia.
    simpl zeros. rewrite string_app_cons.
    set (m := zeros _ +:+ _).
    assert (String.length m = S f) as Hm.
    { unfold m. rewrite string_length_app.
      assert (∀ k, String.length (zeros k) = k) as ->
        by (induction k; simpl; congruence).
      lia. }
    simpl String.length. rewrite Hm.
    replace (S (S f) - S f)%nat with 1%nat by lia.
    simpl. rewrite string_app_cons. by eexists _, _.
  - apply Nat.leb_gt in Hk. rewrite Hn in Hk |- *. simpl in Hk.
    simpl String.length.
    destruct (S (String.length rest) - S f)%nat as [|k] eqn:Hdiff; [lia|].
    simpl. rewrite string_app_cons. by eexists _, _.
Qed.

(** The text of a number is never empty and never ["N/A"]. *)
Lemma toFixed_first (f : nat) (x : Q) :
  ∃ (a : ascii) (rest : string),
    toFixed f x = String a rest ∧ (a = "-"%char ∨ is_digit a = true).
Proof.
  rewrite toFixed_sign.
  destruct (Qlt_bool x 0); [eexists _, _; split; [apply string_app_cons|by left]|].
  destruct (toFixed_head f (Qabs x) (Qabs_nonneg x)) as (d & rest & -> & Hd).
  eexists _, _. split; [apply string_app_nil|by right].
Qed.

Lemma toFixed_not_NA (f : nat) (x : Q) : toFixed f x ≠ "N/A".
Proof.
  destruct (toFixed_first f x) as (a & rest & -> & [-> | Ha]); [done|].
  intros [= -> _]. done.
Qed.

End NumberFacts.

Module UriFacts.
Import JS Spec JSFacts.

(** ** Strings *)

Lemma list_ascii_of_string_app (s t : string) :
  list_ascii_of_string (s +:+ t)
  = (list_ascii_of_string s ++ list_ascii_of_string t)%list.
Proof.
  induction s as [|a s IH]; [done|].
  rewrite string_app_cons. simpl. by rewrite IH.
Qed.

Lemma list_ascii_of_string_inj (s t : string) :
  list_ascii_of_string s = list_ascii_of_string t → s = t.
Proof.
  intros Heq.
  by rewrite <- (string_of_list_ascii_of_string s),
    <- (string_of_list_ascii_of_string t), Heq.
Qed.

Lemma string_app_inv_head (s t u : string) : s +:+ t = s +:+ u → t = u.
Proof.
  induction s as [|a s IH]; [done|].
  rewrite !string_app_cons. intros [= Heq]. by apply IH.
Qed.

Lemma string_app_inv_tail (s t u : string) : s +:+ u = t +:+ u → s = t.
Proof.
  intros Heq. apply list_ascii_of_string_inj.
  apply (f_equal list_ascii_of_string) in Heq.
  rewrite !list_ascii_of_string_app in Heq.
  by apply app_inv_tail in Heq.
Qed.

Lemma occurrences_app (a : ascii) (s t : string) :
  occurrences a (s +:+ t) = (occurrences a s + occurrences a t)%nat.
Proof.
  induction s as [|b s IH]; [done|].
  rewrite string_app_cons. simpl. rewrite IH. lia.
Qed.

(** ** [encodeURIComponent] *)

Lemma N_of_ascii_bound (a : ascii) : (N_of_ascii a < 256)%N.
Proof. apply N_ascii_bounded. Qed.

Lemma N_of_hex_char (d : N) :
  (d < 16)%N →
  N_of_ascii (hex_char d) = if (d <? 10)%N then (48 + d)%N else (55 + d)%N.
Proof.
  intros Hd. unfold hex_char, digit_char.
  destruct (d <? 10)%N; apply N_ascii_embedding; lia.
Qed.

Lemma hex_char_inj (d e : N) :
  (d < 16)%N → (e < 16)%N → hex_char d = hex_char e → d = e.
Proof.
  intros Hd He Heq. apply (f_equal N_of_ascii) in Heq.
  rewrite !N_of_hex_char in Heq by done.
  destruct (N.ltb_spec d 10), (N.ltb_spec e 10); lia.
Qed.

Lemma is_unreserved_hex_char (d : N) : (d < 16)%N → is_unreserved (hex_char d) = true.
Proof.
  intros Hd. unfold is_unreserved. rewrite N_of_hex_char by done.
  apply orb_true_iff. left.
  destruct (N.ltb_spec d 10).
  - apply orb_true_iff. left. apply orb_true_iff. left.
    apply andb_true_iff. split; apply N.leb_le; lia.
  - apply orb_true_iff. left. apply orb_true_iff. right.
    apply andb_true_iff. split; apply N.leb_le; lia.
Qed.

Lemma ascii_eqb_unreserved (a b : ascii) :
  is_unreserved a = false → is_unreserved b = true → Ascii.eqb a b = false.
Proof.
  intros Ha Hb. apply Ascii.eqb_neq. intros ->. congruence.
Qed.

Lemma high_nibble (a : ascii) : (N_of_ascii a / 16 < 16)%N.
Proof.
  pose proof (N_of_ascii_bound a). apply N.Div0.div_lt_upper_bound. lia.
Qed.

Lemma low_nibble (a : ascii) : (N_of_ascii a mod 16 < 16)%N.
Proof. apply N.mod_lt. lia. Qed.

(** Every character of an encoded component is unreserved or the [%] of
    an escape: a character that is neither does not occur. *)
Lemma occurrences_encodeURIComponent (a : ascii) (s : string) :
  is_unreserved a = false → a ≠ "%"%char →
  occurrences a (encodeURIComponent s) = 0%nat.
Proof.
  intros Ha Hpercent. induction s as [|b s IH]; [done|]. simpl.
  destruct (is_unreserved b) eqn:Hb; simpl.
  - by rewrite ascii_eqb_unreserved, IH.
  - rewrite (proj2 (Ascii.eqb_neq _ _) Hpercent).
    rewrite !ascii_eqb_unreserved, IH;
      [done|done|by apply is_unreserved_hex_char, low_nibble
       |done|by apply is_unreserved_hex_char, high_nibble].
Qed.

(** Different texts have different encodings. *)
Lemma encodeURIComponent_inj (s t : string) :
  encodeURIComponent s = encodeURIComponent t → s = t.
Proof.
  revert t. induction s as [|a s IH]; intros [|b t]; simpl.
  - done.
  - by destruct (is_unreserved b).
  - by destruct (is_unreserved a).
  - destruct (is_unreserved a) eqn:Ha, (is_unreserved b) eqn:Hb.
    + intros [= -> Heq]. f_equal. by apply IH.
    + intros [= -> _]. done.
    + intros [= <- _]. done.
    + intros [= Hhigh Hlow Heq].
      apply hex_char_inj in Hhigh; [|apply high_nibble..].
      apply hex_char_inj in Hlow; [|apply low_nibble..].
      f_equal; [|by apply IH].
      rewrite <- (ascii_N_embedding a), <- (ascii_N_embedding b). f_equal.
      rewrite (N.div_mod (N_of_ascii a) 16), (N.div_mod (N_of_ascii b) 16) by done.
      by rewrite Hhigh, Hlow.
Qed.

End UriFacts.

(** * Part X: further properties of the page *)

Module PageFacts.
Import JS Spec JSFacts NumberFacts Client Page ClientFacts Examples.
Local Open Scope Q_scope.

(** ** Segments *)

Lemma tenth (x : Q) : x / 10 == x * 0.1.
Proof. reflexivity. Qed.

(** A value rounded to one decimal place, [Math.round(x * 10) / 10], is
    within 0.05 of [x]. *)
Lemma round_to_tenth_close (x : Q) :
  x - 0.05 < Math_round (x * 10) / 10 ∧ Math_round (x * 10) / 10 <= x + 0.05.
Proof.
  destruct (Math_round_close (x * 10)) as [Hlow Hhigh].
  rewrite tenth. set (m := Math_round _) in *. clearbody m. split; qlra.
Qed.

Lemma Math_round_zero (x : Q) : -0.5 <= x → x < 0.5 → Math_round x = 0.
Proof.
  intros Hlow Hhigh. unfold Math_round.
  rewrite (Qfloor_unique 0); [done|..].
  - change (inject_Z 0) with 0. qlra.
  - change (inject_Z (0 + 1)) with 1. qlra.
Qed.

Lemma Math_round_positive (x : Q) : 0.5 <= x → 1 <= Math_round x.
Proof.
  intros Hx. change 1 with (Math_round 0.5). by apply Math_round_mono.
Qed.

Lemma Math_round_negative (x : Q) : x < -0.5 → Math_round x <= -1.
Proof.
  intros Hx. unfold Math_round.
  pose proof (Qfloor_le (x + 0.5)) as Hfloor.
  assert (inject_Z (Qfloor (x + 0.5)) < inject_Z 0) as Hneg by (change (inject_Z 0) with 0; qlra).
  rewrite <- Zlt_Qlt in Hneg.
  change (-1) with (inject_Z (-1)). rewrite <- Zle_Qle. lia.
Qed.

Lemma generateDemoSegmentsData_nonzero (latestRevenue : Q) :
  ¬ latestRevenue == 0 →
  generateDemoSegmentsData latestRevenue
  = [ {| Segment.name := "Products";
         Segment.value := Math_round (latestRevenue * 0.55 * 10) / 10;
         Segment.growth := 5.2; Segment.color := "#F59E0B" |};
      {| Segment.name := "Services";
         Segment.value := Math_round (latestRevenue * 0.30 * 10) / 10;
         Segment.growth := 8.5; Segment.color := "#3B82F6" |};
      {| Segment.name := "Other";
         Segment.value := Math_round (latestRevenue * 0.15 * 10) / 10;
         Segment.growth := 3.1; Segment.color := "#10B981" |} ].
Proof.
  intros Hrevenue. unfold generateDemoSegmentsData.
  destruct (Qeq_bool latestRevenue 0) eqn:Hzero; [|done].
  by apply Qeq_bool_iff in Hzero.
Qed.





(** The segments are empty exactly when the latest period is missing,
    reports no revenue or reports a revenue of zero; otherwise there are
    three. *)
Lemma segmentsData_latest (financials : option FinancialsResponse) :
  segmentsData financials
  = generateDemoSegmentsData
      (or_number (Client.value <$>
                    (latestFinancials financials
                     ≫= λ f, revenues (income_statement (Client.financials f)))) 0
       / 1e9).
Proof. reflexivity. Qed.

Lemma billions_zero (x : Q) : x / 1e9 == 0 ↔ x == 0.
Proof.
  split; [|by intros ->].
  intros Hx. assert (x == x / 1e9 * 1e9) as -> by (field; done).
  by rewrite Hx.
Qed.



(** ** The DCF projection *)

Ltac eval_Math_pow :=
  repeat match goal with
    | |- context [Math_pow ?b ?e] =>
        let v := eval vm_compute in (Math_pow b e) in
        change (Math_pow b e) with v
    end.

Lemma billions_nonneg (x : Q) : 0 <= x → 0 <= x / 1e9.
Proof. intros Hx. apply Qle_shift_div_l; [done|]. by rewrite Qmult_0_l. Qed.

(** X15. When the revenue of the newest period is not negative, every
    projected year has [0 <= dcf <= fcf] (discounting never raises a cash
    flow), and neither [fcf] nor [dcf] decreases from one projected year
    to the next. *)
Theorem generateDCFData_is_discounted (env : Env) (latest : FinancialData)
    (older : list FinancialData) :
  0 <= revenue_or_0 latest →
  let projection := generateDCFData env (latest :: older) in
  Forall (λ p, 0 <= DCFPoint.dcf p ∧ DCFPoint.dcf p <= DCFPoint.fcf p) projection ∧
  ∀ (i : nat) (p q : DCFPoint.t),
    projection !! i = Some p → projection !! S i = Some q →
    DCFPoint.fcf p <= DCFPoint.fcf q ∧ DCFPoint.dcf p <= DCFPoint.dcf q.
Proof.
  intros Hrevenue projection. unfold projection.
  rewrite generateDCFData_cons.
  apply billions_nonneg in Hrevenue.
  set (r := revenue_or_0 latest / 1e9) in *. clearbody r.
  cbn [seq fmap list_fmap]. split.
  - repeat constructor; cbn [DCFPoint.dcf DCFPoint.fcf]; eval_Math_pow;
      (apply Math_round_nonneg || apply Math_round_mono); qlra.
  - intros i p q Hp Hq.
    destruct i as [|[|[|[|[|i]]]]]; cbn [lookup list_lookup] in Hp, Hq; try done;
      injection Hp as <-; injection Hq as <-;
      cbn [DCFPoint.dcf DCFPoint.fcf]; eval_Math_pow;
      split; apply Math_round_mono; qlra.
Qed.

Lemma generateDCFData_is_discounted_witness :
  0 <= revenue_or_0 period_2024 ∧
  Forall (λ p, 0 <= DCFPoint.dcf p ∧ DCFPoint.dcf p <= DCFPoint.fcf p)
         (generateDCFData in_2026 [period_2024]).
Proof.
  split; [done|].
  by destruct (generateDCFData_is_discounted in_2026 period_2024 []).
Defined.

(** X16. The year labels when the newest period does not carry a numeral:
    with an empty [fiscal_year] the projection starts after the current
    calendar year; with a [fiscal_year] that [parseInt] cannot read (one
    that is not empty and does not start with a numeral, such as
    ["FY2024"]) all five labels read ["NaN"].  The values of [fcf] and
    [dcf] are not affected. *)
Theorem generateDCFData_years_without_a_numeral (env : Env)
    (latest : FinancialData) (older : list FinancialData) :
  fiscal_year latest = "" ∨ parseInt (fiscal_year latest) = None →
  (fiscal_year latest = "" → (Z.abs (getFullYear env) < 10 ^ 21)%Z →
     DCFPoint.year <$> generateDCFData env (latest :: older)
     = (λ n : nat, Number_toString (getFullYear env + Z.of_nat n)) <$> [1; 2; 3; 4; 5]%nat) ∧
  (fiscal_year latest ≠ "" →
     DCFPoint.year <$> generateDCFData env (latest :: older)
     = ["NaN"; "NaN"; "NaN"; "NaN"; "NaN"]).
Proof.
  intros Hyear. rewrite generateDCFData_cons. split.
  - intros Hempty Hbound. rewrite Hempty. cbn [or_string].
    rewrite parseInt_Number_toString by done.
    cbn [seq fmap list_fmap DCFPoint.year year_label].
    assert (∀ k : nat, (getFullYear env + Z.of_nat k + 1
                        = getFullYear env + Z.of_nat (k + 1))%Z) as Hnext by lia.
    by rewrite !Hnext.
  - intros Hnonempty. destruct Hyear as [Hempty|Hnan]; [done|].
    rewrite or_string_nonempty, Hnan by done. reflexivity.
Qed.

Lemma generateDCFData_years_without_a_numeral_witness :
  DCFPoint.year <$> generateDCFData in_2026 [period_without_year]
  = ["2027"; "2028"; "2029"; "2030"; "2031"] ∧
  DCFPoint.year <$> generateDCFData in_2026 [period "FY2024" (Some 100e9) None]
  = ["NaN"; "NaN"; "NaN"; "NaN"; "NaN"].
Proof.
  split.
  - destruct (generateDCFData_years_without_a_numeral in_2026 period_without_year [])
      as [Hclock _]; [by left|].
    by rewrite Hclock.
  - destruct (generateDCFData_years_without_a_numeral in_2026
                (period "FY2024" (Some 100e9) None) []) as [_ Hnan]; [by right|].
    by rewrite Hnan.
Defined.

(** ** Currency *)

Lemma toLocaleString_negative (loc : Locale) (x : Q) :
  x < 0 → toLocaleString loc x = "-" +:+ toLocaleString loc (- x).
Proof.
  intros Hx. unfold toLocaleString.
  rewrite (proj2 (Qlt_bool_iff x 0) Hx).
  rewrite (proj2 (Qlt_bool_false_iff (- x) 0)) by lra.
  assert (round_scaled 3 (Qabs (- x)) = round_scaled 3 (Qabs x)) as ->
    by (apply round_scaled_comp, Qabs_opp).
  cbv zeta. by destruct (strip_trailing_zeros _).
Qed.

(** X17. A negative amount (a net loss in the table of the earlier
    revision) is never abbreviated, however large: both revisions of
    [formatCurrency] write ["$-"] and the grouped magnitude. *)
Theorem formatCurrency_of_a_loss (env : Env) (value : Q) :
  value < 0 →
  formatCurrency env value
  = "$-" +:+ toLocaleString (default_locale env) (- value) ∧
  Client.Legacy.formatCurrency env value
  = "$-" +:+ toLocaleString (default_locale env) (- value).
Proof.
  intros Hvalue. unfold formatCurrency, Client.Legacy.formatCurrency.
  rewrite !(proj2 (Qle_bool_false_iff _ value)) by qlra.
  by rewrite toLocaleString_negative.
Qed.

Lemma formatCurrency_of_a_loss_witness :
  -2500000000 < 0 ∧
  formatCurrency in_2026 (-2500000000) = "$-2,500,000,000" ∧
  Client.Legacy.formatCurrency in_2026 (-2500000000) = "$-2,500,000,000".
Proof.
  split; [done|].
  destruct (formatCurrency_of_a_loss in_2026 (-2500000000)) as [-> ->]; done.
Defined.

(** X18. The two revisions of [formatCurrency] agree below 1e12; from 1e12
    on the earlier one stays in billions where the later one writes
    trillions. *)
Theorem formatCurrency_revisions (env : Env) (value : Q) :
  (value < 1e12 → Client.Legacy.formatCurrency env value = formatCurrency env value) ∧
  (1e12 <= value →
     Client.Legacy.formatCurrency env value
     = "$" +:+ toFixed 2 (Number_divide value 1e9) +:+ "B" ∧
     formatCurrency env value
     = "$" +:+ toFixed 2 (Number_divide value 1e12) +:+ "T").
Proof.
  unfold formatCurrency, Client.Legacy.formatCurrency. split.
  - intros Hvalue. by rewrite (proj2 (Qle_bool_false_iff _ _) Hvalue).
  - intros Hvalue. rewrite (proj2 (Qle_bool_iff 1e12 _) Hvalue).
    by rewrite (proj2 (Qle_bool_iff 1e9 value)) by qlra.
Qed.

Lemma formatCurrency_revisions_witness :
  Client.Legacy.formatCurrency in_2026 2300000000000 = "$2300.00B" ∧
  formatCurrency in_2026 2300000000000 = "$2.30T" ∧
  Client.Legacy.formatCurrency in_2026 1500000000 = formatCurrency in_2026 1500000000.
Proof.
  destruct (formatCurrency_revisions in_2026 2300000000000) as [_ Hlarge].
  destruct Hlarge as [-> ->]; [done|].
  destruct (formatCurrency_revisions in_2026 1500000000) as [Hsmall _].
  split; [done|]. split; [done|]. by apply Hsmall.
Defined.

Lemma toFixed_2_just_below_1000 (x : Q) :
  999.995 <= x → x <= 1000 → toFixed 2 x = "1000.00".
Proof.
  intros Hlow Hhigh.
  assert (Qabs x == x) as Habs by (apply Qabs_pos; lra).
  rewrite toFixed_2_spec
    by (rewrite Habs; change (inject_Z (10 ^ 21)) with 1e21; qlra).
  unfold two_decimal_places.
  rewrite (proj2 (Qlt_bool_false_iff x 0)) by lra.
  assert (round_scaled 2 (Qabs x) = 100000%Z) as ->; [|reflexivity].
  rewrite Habs. unfold round_scaled. apply Qfloor_unique.
  - change (inject_Z (10 ^ Z.of_nat 2)) with 100.
    change (inject_Z 100000) with 100000. lra.
  - change (inject_Z (10 ^ Z.of_nat 2)) with 100.
    change (inject_Z (100000 + 1)) with 100001. lra.
Qed.

(** A quotient from 999.995 up to 1000 stays in that range when it is
    rounded to binary64. *)
Lemma quotient_just_below_1000 (value unit : Q) :
  0 < unit → 999.995 * unit <= value → value <= 1000 * unit →
  999.995 <= Number_divide value unit ∧ Number_divide value unit <= 1000.
Proof.
  intros Hunit Hlow Hhigh. unfold Number_divide. split.
  - apply Qle_trans with (binary64 999.995); [by vm_compute|].
    apply binary64_mono. by apply Qle_shift_div_l.
  - apply Qle_trans with (binary64 1000); [|by vm_compute].
    apply binary64_mono. by apply Qle_shift_div_r.
Qed.

(** X19. At the upper edge of a band the two decimals round up to a
    thousand of the smaller unit: amounts from 999,995,000 up to (not
    including) 1e9 read ["$1000.00M"], and amounts from 999,995,000,000
    up to 1e12 read ["$1000.00B"]. *)
Theorem formatCurrency_at_the_edge_of_a_band (env : Env) (value : Q) :
  (999995000 <= value → value < 1e9 → formatCurrency env value = "$1000.00M") ∧
  (999995000000 <= value → value < 1e12 → formatCurrency env value = "$1000.00B").
Proof.
  unfold formatCurrency. split; intros Hlow Hhigh.
  - rewrite !(proj2 (Qle_bool_false_iff _ value)) by qlra.
    rewrite (proj2 (Qle_bool_iff 1e6 value)) by qlra.
    destruct (quotient_just_below_1000 value 1e6) as [Hq1 Hq2]; [done|qlra..|].
    by rewrite toFixed_2_just_below_1000.
  - rewrite (proj2 (Qle_bool_false_iff 1e12 value)) by qlra.
    rewrite (proj2 (Qle_bool_iff 1e9 value)) by qlra.
    destruct (quotient_just_below_1000 value 1e9) as [Hq1 Hq2]; [done|qlra..|].
    by rewrite toFixed_2_just_below_1000.
Qed.

Lemma formatCurrency_at_the_edge_of_a_band_witness :
  formatCurrency in_2026 999999000 = "$1000.00M" ∧
  formatCurrency in_2026 999995000000 = "$1000.00B".
Proof.
  split.
  - by apply (formatCurrency_at_the_edge_of_a_band in_2026 999999000).
  - by apply (formatCurrency_at_the_edge_of_a_band in_2026 999995000000).
Defined.

(** ** The metric cards *)

Lemma formatCurrency_head (env : Env) (value : Q) :
  ∃ rest : string, formatCurrency env value = String "$" rest.
Proof.
  unfold formatCurrency.
  destruct (Qle_bool 1e12 value); [by eexists|].
  destruct (Qle_bool 1e9 value); [by eexists|].
  destruct (Qle_bool 1e6 value); by eexists.
Qed.



(** ** The line under the price *)



(** ** The table of the earlier revision *)

Lemma legacy_formatCurrency_zero (env : Env) : Client.Legacy.formatCurrency env 0 = "$0".
Proof.
  unfold Client.Legacy.formatCurrency.
  change (Qle_bool 1e9 0) with false. change (Qle_bool 1e6 0) with false.
  cbv iota. unfold toLocaleString.
  change (round_scaled 3 (Qabs 0)) with 0%Z.
  change (Z_digits (0 / 1000)) with "0".
  unfold group_digits. destruct (minimum_grouping_digits (default_locale env)); reflexivity.
Qed.

(** X22. In the table of the earlier revision a period without [revenues],
    [net_income_loss] or [gross_profit] shows ["$0"] in that column in
    every default locale that writes numbers with the ASCII digits (the
    locales of [Locale]: whatever the separators and the grouping), and
    a period without [basic_earnings_per_share] shows ["$N/A"]; an EPS
    that is reported, zero included, is never replaced (zero shows
    ["$0.00"]). *)
Theorem legacy_table_cells (env : Env) (item : FinancialData) :
  let statement := income_statement (Client.financials item) in
  (revenues statement = None → Page.Legacy.revenueCell env item = "$0") ∧
  (net_income_loss statement = None → Page.Legacy.netIncomeCell env item = "$0") ∧
  (gross_profit statement = None → Page.Legacy.grossProfitCell env item = "$0") ∧
  (Page.Legacy.epsCell item = "$N/A" ↔ basic_earnings_per_share statement = None) ∧
  (∀ metric : Metric,
     basic_earnings_per_share statement = Some metric →
     Page.Legacy.epsCell item = "$" +:+ toFixed 2 (Client.value metric)).
Proof.
  intros statement.
  unfold Page.Legacy.revenueCell, Page.Legacy.netIncomeCell, Page.Legacy.grossProfitCell,
    Page.Legacy.epsCell, revenue_or_0, net_income_or_0.
  fold statement. split_and!.
  - intros ->. apply legacy_formatCurrency_zero.
  - intros ->. apply legacy_formatCurrency_zero.
  - intros ->. apply legacy_formatCurrency_zero.
  - destruct (basic_earnings_per_share statement) as [metric|]; [|done]. simpl.
    destruct (toFixed_first 2 (Client.value metric)) as (a & rest & Hfixed & Ha).
    rewrite Hfixed. simpl. split; [|done].
    intros [= -> _]. by destruct Ha.
  - intros metric ->. simpl.
    by destruct (toFixed_first 2 (Client.value metric)) as (a & rest & -> & _).
Qed.

Lemma legacy_table_cells_witness :
  Page.Legacy.revenueCell in_2026_de (period "2023" None None) = "$0" ∧
  Page.Legacy.epsCell (period "2023" None None) = "$N/A".
Proof.
  destruct (legacy_table_cells in_2026_de (period "2023" None None))
    as (Hrevenue & _ & _ & Heps & _).
  split; [by apply Hrevenue|by apply Heps].
Defined.

(** ** The chart rows of the earlier revision *)

Lemma billions_back (x : Q) : x == x / 1e9 * 1e9.
Proof. field. done. Qed.



End PageFacts.

(** * Part XI: further properties of the data proxy *)

Module ProxyFacts.
Import JS Spec JSFacts UriFacts Server ServerFacts Examples.

(** ** The upstream calls of a request *)

(** The calls a handler makes do not depend on the provider. *)
Lemma handler_calls (l : Listing) (key : string) (route : Route) (req : Request)
    (up : Upstream) (log : list FetchCall) :
  snd (handler l key route req up log) = (log ++ calls_of l key route req)%list.
Proof.
  unfold calls_of, run. destruct (accepted route req) eqn:Hacc.
  - destruct (handler_accepted l key route req Hacc) as [call Hcall].
    by rewrite !Hcall.
  - destruct (handler_refused l key route req up log Hacc) as [message ->].
    destruct (handler_refused l key route req (λ _ _, Rejected "") [] Hacc)
      as [message' ->].
    simpl. by rewrite app_nil_r.
Qed.

Lemma calls_of_accepted (l : Listing) (key : string) (route : Route) (req : Request) :
  accepted route req = true →
  ∃ call : FetchCall,
    calls_of l key route req = [call] ∧
    ∀ (up : Upstream) (log : list FetchCall),
      handler l key route req up log
      = (Fulfilled (reply l (up log call)), (log ++ [call])%list).
Proof.
  intros Hacc. destruct (handler_accepted l key route req Hacc) as [call Hcall].
  exists call. split; [|done]. unfold calls_of, run. by rewrite Hcall.
Qed.

Lemma calls_of_refused (l : Listing) (key : string) (route : Route) (req : Request) :
  accepted route req = false → calls_of l key route req = [].
Proof.
  intros Hacc. unfold calls_of, run.
  by destruct (handler_refused l key route req (λ _ _, Rejected "") [] Hacc)
    as [message ->].
Qed.

Lemma handler_refused_with (l : Listing) (key : string) (route : Route)
    (req : Request) (up : Upstream) (log : list FetchCall) :
  accepted route req = false →
  handler l key route req up log
  = (Fulfilled (error_response 400 (refusal route)), log).
Proof.
  intros Hacc. destruct l, route; simpl in Hacc; try done; simpl.
  - unfold V1.search. by rewrite Hacc.
  - unfold V1.aggregates.
    apply andb_false_iff in Hacc as [->| ->]; [done|]. by rewrite orb_true_r.
  - unfold V2.search. by rewrite Hacc.
  - unfold V2.aggregates.
    apply andb_false_iff in Hacc as [->| ->]; [done|]. by rewrite orb_true_r.
Qed.

(** X3. A handler keeps no state.  The upstream calls it makes are
    fixed by the request alone: one for a request that passes the
    parameter check, none for another, added to the calls made before,
    whatever they were and whatever the provider answered.  Its answer
    depends on nothing but the way its own call settles: two runs in
    which that call settles alike give the same answer, whatever was
    served before. *)
Theorem a_handler_keeps_no_state (l : Listing) (key : string) (route : Route)
    (req : Request) :
  List.length (calls_of l key route req) = (if accepted route req then 1 else 0)%nat ∧
  (∀ (up : Upstream) (log : list FetchCall),
     snd (handler l key route req up log) = (log ++ calls_of l key route req)%list) ∧
  (∀ (up up' : Upstream) (log log' : list FetchCall),
     Forall (λ call, up log call = up' log' call) (calls_of l key route req) →
     fst (handler l key route req up log) = fst (handler l key route req up' log')).
Proof.
  split; [|split; [apply handler_calls|]].
  - destruct (accepted route req) eqn:Hacc.
    + by destruct (calls_of_accepted l key route req Hacc) as (call & -> & _).
    + by rewrite calls_of_refused.
  - intros up up' log log' Hsame. destruct (accepted route req) eqn:Hacc.
    + destruct (calls_of_accepted l key route req Hacc) as (call & Hcalls & Hcall).
      rewrite Hcalls in Hsame. apply Forall_inv in Hsame. simpl in Hsame.
      rewrite !Hcall. simpl. by rewrite Hsame.
    + by rewrite !handler_refused_with.
Qed.

Lemma a_handler_keeps_no_state_witness :
  calls_of KeyInHeaders "KEY" Previous previous_of_AAPL
  = [ {| url := "https://api.polygon.io/v2/aggs/ticker/AAPL/prev?adjusted=true";
         headers := V2.authHeaders "KEY" |} ] ∧
  fst (handler KeyInHeaders "KEY" Previous previous_of_AAPL too_many_requests [])
  = fst (handler KeyInHeaders "KEY" Previous previous_of_AAPL too_many_requests
           (calls_of KeyInHeaders "KEY" Search search_for_a_blank)).
Proof.
  split; [reflexivity|].
  destruct (a_handler_keeps_no_state KeyInHeaders "KEY" Previous previous_of_AAPL)
    as (_ & _ & Hanswer).
  apply Hanswer. by repeat constructor.
Defined.

(** In every route with a ticker, the URL of the call is a prefix, the
    encoded ticker and a suffix, and the ticker is in neither of the
    two. *)
Lemma calls_of_ticker (l : Listing) (key : string) (route : Route) (req : Request) :
  route ≠ Search → accepted route req = true →
  ∃ prefix suffix : string, ∀ t : string,
    url <$> calls_of l key route (with_ticker t req)
    = [prefix +:+ encodeURIComponent t +:+ suffix].
Proof.
  intros Hroute Hacc. destruct route; try done; clear Hroute.
  - exists (POLYGON_BASE_URL +:+ "/v3/reference/tickers/").
    destruct l; eexists; intros t.
    + reflexivity.
    + simpl. by rewrite (string_app_empty_r (encodeURIComponent t)).
  - exists (POLYGON_BASE_URL +:+ "/vX/reference/financials?ticker=").
    destruct l; eexists; intros t; unfold calls_of, run, with_ticker; simpl;
      reflexivity.
  - simpl in Hacc. apply andb_true_iff in Hacc as [Hfrom Hto].
    exists (POLYGON_BASE_URL +:+ "/v2/aggs/ticker/").
    destruct l; eexists; intros t; unfold calls_of, run, with_ticker; simpl.
    + unfold V1.aggregates. simpl. rewrite Hfrom, Hto. reflexivity.
    + unfold V2.aggregates. simpl. rewrite Hfrom, Hto. reflexivity.
  - exists (POLYGON_BASE_URL +:+ "/v2/aggs/ticker/").
    destruct l; eexists; intros t; reflexivity.
Qed.



(** X8. Two requests of a route that differ only in the ticker lead to
    different upstream URLs: no two tickers are sent to the provider as
    the same one. *)
Theorem tickers_do_not_collide (l : Listing) (key : string) (route : Route)
    (req : Request) (t t' : string) :
  route ≠ Search → accepted route req = true → t ≠ t' →
  url <$> calls_of l key route (with_ticker t req)
  ≠ url <$> calls_of l key route (with_ticker t' req).
Proof.
  intros Hroute Hacc Hdifferent.
  destruct (calls_of_ticker l key route req Hroute Hacc) as (prefix & suffix & Hurl).
  rewrite !Hurl. intros [= Heq]. apply Hdifferent.
  apply string_app_inv_head in Heq.
  by apply string_app_inv_tail, encodeURIComponent_inj in Heq.
Qed.

Lemma tickers_do_not_collide_witness :
  url <$> calls_of KeyInQuery "KEY" Previous (with_ticker "A/B" previous_of_AAPL)
  ≠ url <$> calls_of KeyInQuery "KEY" Previous (with_ticker "A%2FB" previous_of_AAPL).
Proof.
  by apply (tickers_do_not_collide KeyInQuery "KEY" Previous previous_of_AAPL).
Defined.

(** ** The key *)

(** In the second listing the key travels in the two headers of
    [authHeaders]; in the first listing every upstream URL ends with the
    key and no header is sent. *)
Lemma calls_carry_the_key (key : string) (route : Route) (req : Request) :
  Forall (λ call, headers call = V2.authHeaders key)
         (calls_of KeyInHeaders key route req) ∧
  Forall (λ call, headers call = [] ∧ ∃ prefix : string, url call = prefix +:+ key)
         (calls_of KeyInQuery key route req).
Proof.
  destruct (accepted route req) eqn:Hacc; [|by rewrite !calls_of_refused].
  destruct route; simpl in Hacc;
    try apply andb_true_iff in Hacc as [Hfrom Hto];
    unfold calls_of, run; simpl;
    unfold V1.search, V2.search, V1.aggregates, V2.aggregates;
    rewrite ?Hacc, ?Hfrom, ?Hto; simpl;
    (split; [by repeat constructor|]);
    repeat constructor; simpl;
    eexists; rewrite <- ?string_app_assoc; reflexivity.
Qed.

(** X6. The key stays on the server.  The answer of the proxy to a
    request is the same under any two keys when the provider answers the
    same; in the second listing the URLs of the upstream calls are the
    same under any two keys as well (the key travels in the headers of
    [authHeaders]), whereas in the first listing every upstream URL ends
    with the key and no header is sent. *)
Theorem the_key_is_sent_upstream_only (l : Listing) (key key' : string)
    (route : Route) (req : Request) :
  (∀ outcome : Settled Response,
     fst (run (handler l key route req) (λ _ _, outcome))
     = fst (run (handler l key' route req) (λ _ _, outcome))) ∧
  url <$> calls_of KeyInHeaders key route req
  = url <$> calls_of KeyInHeaders key' route req ∧
  Forall (λ call, headers call = V2.authHeaders key)
         (calls_of KeyInHeaders key route req) ∧
  Forall (λ call, headers call = [] ∧ ∃ prefix : string, url call = prefix +:+ key)
         (calls_of KeyInQuery key route req).
Proof.
  split; [|split; [|apply calls_carry_the_key]].
  - intros outcome. unfold run. destruct (accepted route req) eqn:Hacc.
    + destruct (handler_accepted l key route req Hacc) as [call ->].
      by destruct (handler_accepted l key' route req Hacc) as [call' ->].
    + by rewrite !handler_refused_with.
  - destruct (accepted route req) eqn:Hacc; [|by rewrite !calls_of_refused].
    destruct route; simpl in Hacc;
      try apply andb_true_iff in Hacc as [Hfrom Hto];
      unfold calls_of, run; simpl;
      unfold V2.search, V2.aggregates;
      by rewrite ?Hacc, ?Hfrom, ?Hto.
Qed.

Lemma the_key_is_sent_upstream_only_witness :
  fst (run (handler KeyInQuery "KEY" Previous previous_of_AAPL) too_many_requests)
  = fst (run (handler KeyInQuery "OTHER" Previous previous_of_AAPL) too_many_requests) ∧
  url <$> calls_of KeyInHeaders "KEY" Previous previous_of_AAPL
  = ["https://api.polygon.io/v2/aggs/ticker/AAPL/prev?adjusted=true"].
Proof.
  destruct (the_key_is_sent_upstream_only KeyInQuery "KEY" "OTHER" Previous
              previous_of_AAPL) as [Hanswer _].
  split; [apply Hanswer|].
  destruct (the_key_is_sent_upstream_only KeyInHeaders "KEY" "OTHER" Previous
              previous_of_AAPL) as (_ & -> & _).
  reflexivity.
Defined.

(** ** Answers *)

(** X4. Every request is answered, whatever the provider does: a handler
    never fails, and its answer is 400 exactly when the request fails
    the parameter check, 200 with a document, or 500 with an error
    message; 200 is sent only when the provider's response was [ok] and
    its body was read as JSON. *)
Theorem every_request_is_answered (l : Listing) (key : string) (route : Route)
    (req : Request) (up : Upstream) (log : list FetchCall) :
  ∃ answer : HttpResponse,
    fst (handler l key route req up log) = Fulfilled answer ∧
    (status answer = 400%nat ↔ accepted route req = false) ∧
    match body answer with
    | DataBody data =>
        status answer = 200%nat ∧
        ∃ (call : FetchCall) (response : Response),
          calls_of l key route req = [call] ∧
          up log call = Fulfilled response ∧ ok response = true ∧
          json response = Fulfilled data
    | ErrorBody _ => status answer = 400%nat ∨ status answer = 500%nat
    end.
Proof.
  destruct (accepted route req) eqn:Hacc.
  - destruct (calls_of_accepted l key route req Hacc) as (call & Hcalls & Hcall).
    rewrite Hcall, Hcalls. eexists. split; [reflexivity|].
    unfold reply.
    destruct (up log call) as [response|message] eqn:Hup; [|by split; [|right]].
    destruct (ok response) eqn:Hok.
    + destruct (json response) as [data|message] eqn:Hjson; [|by split; [|right]].
      simpl. split; [done|]. split; [done|]. by exists call, response.
    + by destruct l, (text response); (split; [|right]).
  - rewrite handler_refused_with by done. eexists. split; [reflexivity|].
    simpl. by split; [|left].
Qed.

(** X5. A successful answer of the provider is relayed as it is: when
    the one upstream call of an accepted request is answered [ok] with a
    body that reads as JSON, the proxy answers 200 with that document,
    unchanged; when the body does not read as JSON it answers 500 with
    the message of the parser. *)
Theorem a_successful_answer_is_relayed (l : Listing) (key : string) (route : Route)
    (req : Request) :
  accepted route req = true →
  ∃ call : FetchCall,
    calls_of l key route req = [call] ∧
    ∀ (up : Upstream) (log : list FetchCall) (response : Response),
      up log call = Fulfilled response → ok response = true →
      (∀ data : Json,
         json response = Fulfilled data →
         fst (handler l key route req up log)
         = Fulfilled {| status := 200; body := DataBody data |}) ∧
      (∀ message : string,
         json response = Rejected message →
         fst (handler l key route req up log)
         = Fulfilled (error_response 500 message)).
Proof.
  intros Hacc.
  destruct (calls_of_accepted l key route req Hacc) as (call & Hcalls & Hcall).
  exists call. split; [done|]. intros up log response Hup Hok.
  rewrite Hcall, Hup. simpl. rewrite Hok.
  split; [intros data ->|intros message ->]; done.
Qed.

Lemma a_successful_answer_is_relayed_witness :
  accepted Previous previous_of_AAPL = true ∧
  fst (run (handler KeyInHeaders "KEY" Previous previous_of_AAPL) always_ok)
  = Fulfilled {| status := 200; body := DataBody "{}" |} ∧
  fst (run (handler KeyInHeaders "KEY" Previous previous_of_AAPL) ok_but_not_json)
  = Fulfilled (error_response 500 "Unexpected token < in JSON at position 0").
Proof.
  split; [done|].
  destruct (a_successful_answer_is_relayed KeyInHeaders "KEY" Previous
              previous_of_AAPL eq_refl) as (call & _ & Hrelay).
  unfold run. split.
  - by apply (Hrelay always_ok [] _ eq_refl eq_refl).
  - by apply (Hrelay ok_but_not_json [] _ eq_refl eq_refl).
Defined.

(** ** Defaults of the query parameters *)

Lemma or_default_falsy (v : option QueryValue) (d : string) :
  truthy v = false → or_default v d = d.
Proof. intros Hv. unfold or_default. destruct v; [by rewrite Hv|done]. Qed.

(** X11. The defaults of the optional parameters.  For the financials, a
    missing or empty [timeframe] is the same request as
    [timeframe=annual], and a missing or empty [limit] the same as
    [limit=5] (the request the page itself sends).  For the aggregates,
    a missing [timespan] is the same request as [timespan=day] and a
    missing [multiplier] the same as [multiplier=1]. *)
Theorem defaults_of_the_optional_parameters (l : Listing) (key : string)
    (req : Request) :
  (truthy (query req !! "timeframe") = false →
     handler l key Income req = handler l key Income (with_query "timeframe" "annual" req)) ∧
  (truthy (query req !! "limit") = false →
     handler l key Income req = handler l key Income (with_query "limit" "5" req)) ∧
  (query req !! "timespan" = None →
     handler l key Aggregates req
     = handler l key Aggregates (with_query "timespan" "day" req)) ∧
  (query req !! "multiplier" = None →
     handler l key Aggregates req
     = handler l key Aggregates (with_query "multiplier" "1" req)).
Proof.
  split_and!; intros Hmissing; destruct l; simpl;
    unfold V1.income, V2.income, V1.aggregates, V2.aggregates, with_query; simpl;
    rewrite ?lookup_insert, ?lookup_insert_ne by done;
    rewrite ?Hmissing, ?(or_default_falsy _ _ Hmissing); reflexivity.
Qed.

Lemma defaults_of_the_optional_parameters_witness :
  calls_of KeyInHeaders "KEY" Income income_of_AAPL
  = calls_of KeyInHeaders "KEY" Income
      (with_query "limit" "5" (with_query "timeframe" "annual" income_of_AAPL)) ∧
  url <$> calls_of KeyInHeaders "KEY" Income income_of_AAPL
  = ["https://api.polygon.io/vX/reference/financials?ticker=AAPL&timeframe=annual&limit=5"].
Proof.
  split; [|reflexivity]. unfold calls_of.
  destruct (defaults_of_the_optional_parameters KeyInHeaders "KEY" income_of_AAPL)
    as (Htimeframe & _).
  destruct (defaults_of_the_optional_parameters KeyInHeaders "KEY"
              (with_query "timeframe" "annual" income_of_AAPL))
    as (_ & Hlimit & _).
  by rewrite (Htimeframe eq_refl), (Hlimit eq_refl).
Defined.

(** An aggregates request with [from] only is refused. *)
Lemma aggregates_require_from_and_to_witness :
  fst (run (handler KeyInHeaders "KEY" Aggregates aggregates_without_to) always_ok)
  = Fulfilled (error_response 400
                 "from and to date parameters are required (YYYY-MM-DD)") ∧
  snd (run (handler KeyInHeaders "KEY" Aggregates aggregates_without_to) always_ok) = [].
Proof.
  unfold run.
  by rewrite (aggregates_require_from_and_to KeyInHeaders "KEY" aggregates_without_to
                always_ok []) by (by right).
Defined.

(** ** What reaches the provider of the query parameters *)

Lemma calls_of_search (l : Listing) (key : string) (req : Request) :
  accepted Search req = true →
  ∃ suffix : string,
    url <$> calls_of l key Search req
    = [ POLYGON_BASE_URL +:+ "/v3/reference/tickers?search="
        +:+ encodeURIComponent (interpolate (query req !! "q")) +:+ suffix ] ∧
    ∀ req' : Request,
      accepted Search req' = true →
      url <$> calls_of l key Search req'
      = [ POLYGON_BASE_URL +:+ "/v3/reference/tickers?search="
          +:+ encodeURIComponent (interpolate (query req' !! "q")) +:+ suffix ].
Proof.
  intros Hacc. simpl in Hacc.
  destruct l; eexists; (split; [|intros req' Hacc'; simpl in Hacc']);
    unfold calls_of, run; simpl; unfold V1.search, V2.search;
    rewrite ?Hacc, ?Hacc'; reflexivity.
Qed.

(** X9. The search text reaches the provider as one value.  Whatever
    the text of [q], the upstream URL of a search has the same number of
    occurrences of every character that [encodeURIComponent] escapes:
    a text such as [x&limit=1000] adds no parameter to the upstream
    query. *)
Theorem a_search_adds_no_delimiter (l : Listing) (key : string)
    (req req' : Request) (a : ascii) :
  accepted Search req = true → accepted Search req' = true →
  is_unreserved a = false → a ≠ "%"%char →
  (λ call, occurrences a (url call)) <$> calls_of l key Search req
  = (λ call, occurrences a (url call)) <$> calls_of l key Search req'.
Proof.
  intros Hacc Hacc' Ha Hpercent.
  destruct (calls_of_search l key req Hacc) as (suffix & Hurl & Hurl').
  specialize (Hurl' req' Hacc').
  change (λ call, occurrences a (url call)) with (occurrences a ∘ url).
  rewrite !list_fmap_compose, Hurl, Hurl'. simpl.
  by rewrite !occurrences_app, !occurrences_encodeURIComponent.
Qed.

Lemma a_search_adds_no_delimiter_witness :
  (λ call, occurrences "&" (url call))
  <$> calls_of KeyInHeaders "KEY" Search
        {| ticker := ""; query := {[ "q" := QString "x&limit=1000" ]} |}
  = [2%nat].
Proof.
  by rewrite (a_search_adds_no_delimiter KeyInHeaders "KEY" _ search_for_a_blank "&").
Defined.

Lemma or_default_text (s d : string) : s ≠ "" → or_default (Some (QString s)) d = s.
Proof. by destruct s. Qed.

Lemma truthy_text (s : string) : s ≠ "" → truthy (Some (QString s)) = true.
Proof. by destruct s. Qed.

(** X10. The optional parameters are copied into the upstream URL as they
    are, without escaping: every character of a [timeframe] and a
    [limit] of the financials, and of the [from] and [to] of the
    aggregates, occurs in the URL of the upstream call at least as
    often as in these values, delimiters such as ["&"] included. *)
Theorem optional_parameters_are_copied_unescaped (l : Listing) (key : string)
    (req : Request) (a : ascii) :
  (∀ timeframe limit : string,
     query req !! "timeframe" = Some (QString timeframe) →
     query req !! "limit" = Some (QString limit) →
     timeframe ≠ "" → limit ≠ "" →
     ∃ call : FetchCall,
       calls_of l key Income req = [call] ∧
       (occurrences a timeframe + occurrences a limit <= occurrences a (url call))%nat) ∧
  (∀ from to : string,
     query req !! "from" = Some (QString from) →
     query req !! "to" = Some (QString to) →
     from ≠ "" → to ≠ "" →
     ∃ call : FetchCall,
       calls_of l key Aggregates req = [call] ∧
       (occurrences a from + occurrences a to <= occurrences a (url call))%nat).
Proof.
  split.
  - intros timeframe limit Htimeframe Hlimit Hnonempty Hnonempty'.
    destruct l; eexists; (split; [reflexivity|]); simpl;
      rewrite Htimeframe, Hlimit, !or_default_text by done;
      rewrite !occurrences_app; lia.
  - intros from to Hfrom Hto Hnonempty Hnonempty'.
    destruct l; unfold calls_of, run; simpl;
      unfold V1.aggregates, V2.aggregates;
      rewrite Hfrom, Hto, !truthy_text by done; simpl;
      (eexists; split; [reflexivity|]); simpl;
      rewrite !occurrences_app; lia.
Qed.

Lemma optional_parameters_are_copied_unescaped_witness :
  url <$> calls_of KeyInHeaders "KEY" Income
            (with_query "limit" "5&sort=asc" (with_query "timeframe" "annual" income_of_AAPL))
  = ["https://api.polygon.io/vX/reference/financials?ticker=AAPL&timeframe=annual&limit=5&sort=asc"] ∧
  ∃ call : FetchCall,
    calls_of KeyInHeaders "KEY" Income
      (with_query "limit" "5&sort=asc" (with_query "timeframe" "annual" income_of_AAPL))
    = [call] ∧
    (1 <= occurrences "&" (url call))%nat.
Proof.
  split; [reflexivity|].
  destruct (optional_parameters_are_copied_unescaped KeyInHeaders "KEY"
              (with_query "limit" "5&sort=asc"
                 (with_query "timeframe" "annual" income_of_AAPL)) "&")
    as [Hincome _].
  apply (Hincome "annual" "5&sort=asc"); done.
Defined.

(** ** Start-up *)

(** X1. [registerRoutes] fails with the message that names the variable
    exactly when [POLYGON_API_KEY] is unset or empty; when it succeeds,
    the handlers it registers are those of a key that is not empty, and
    every upstream call they make carries that key. *)
Theorem registerRoutes_needs_a_key (l : Listing) (env_POLYGON_API_KEY : option string) :
  let registerRoutes :=
    match l with KeyInQuery => V1.registerRoutes | KeyInHeaders => V2.registerRoutes end in
  (registerRoutes env_POLYGON_API_KEY = Rejected missing_key_message
   ↔ env_POLYGON_API_KEY = None ∨ env_POLYGON_API_KEY = Some "") ∧
  (∀ routes : Route → Request → Eff HttpResponse,
     registerRoutes env_POLYGON_API_KEY = Fulfilled routes →
     ∃ key : string,
       env_POLYGON_API_KEY = Some key ∧ key ≠ "" ∧ routes = handler l key ∧
       ∀ (route : Route) (req : Request),
         Forall (λ call, match l with
                         | KeyInQuery => ∃ prefix : string, url call = prefix +:+ key
                         | KeyInHeaders => headers call = V2.authHeaders key
                         end)
                (calls_of l key route req)).
Proof.
  intros registerRoutes. split.
  - destruct l, env_POLYGON_API_KEY as [[|a key]|]; simpl; split; try done; auto;
      by intros [|].
  - intros routes Hroutes.
    destruct env_POLYGON_API_KEY as [[|a key]|]; [by destruct l| |by destruct l].
    exists (String a key). split; [done|]. split; [done|].
    split; [unfold registerRoutes in Hroutes; by destruct l; injection Hroutes as <-|].
    intros route req.
    destruct (calls_carry_the_key (String a key) route req)
      as [Hheaders Hquery].
    destruct l; [|done].
    eapply Forall_impl; [apply Hquery|]. by intros call [_ ?].
Qed.

Lemma registerRoutes_needs_a_key_witness :
  V2.registerRoutes None = Rejected missing_key_message ∧
  V1.registerRoutes (Some "") = Rejected missing_key_message.
Proof.
  split.
  - destruct (registerRoutes_needs_a_key KeyInHeaders None) as [[_ Hmissing] _].
    apply Hmissing. by left.
  - destruct (registerRoutes_needs_a_key KeyInQuery (Some "")) as [[_ Hempty] _].
    apply Hempty. by right.
Defined.

End ProxyFacts.
